(** * The frame-sampling, clamping and score-aggregation pipeline of
      [predict_on_video] (app.py)

    The function opens a video, reads at most [min(max_frames, frame_count)]
    frames, asks the face detector for boxes, crops and scores every face,
    and turns the mean score into one decision string.

    Modelling conventions.
    - The video source, the face detector ([mtcnn.detect]) and the scoring
      chain ([transform], [model], [torch.sigmoid], [.item()]) are external
      collaborators: Section variables give, for every frame and crop, what
      the call returns or raises.
    - Python exceptions are values; a call either returns or raises
      ([outcome]).  [except Exception] catches instances of [Exception] and
      nothing else.
    - The mutable locals ([predictions], the capture object) live in an
      explicit state record threaded through a small state-and-exception
      monad.
    - Scores are binary64 numbers, held as the rationals they denote ([Q]).
      Every arithmetic operation of lines 156-163 is the exact operation
      followed by a rounding to the nearest binary64 number, ties to even
      ([round64]); [np.mean] adds the scores in list order, starting from
      zero, and divides by the count.  Comparison and [:.2f] work on the
      exact value of a binary64 number.  NaN and the infinities are not
      scores of the model, and overflow is left out: [round64] has
      subnormal numbers but no largest number.  numpy adds the elements of
      an array of fewer than eight elements in list order; from eight
      elements on it adds them in blocks, which the model does not
      reproduce.
    - Console output is left out, except the warning of line 148, which is
      recorded in the state. *)

From Stdlib Require Import ZArith QArith Qround Qabs Qpower List String Ascii Lia Lqa.
From Stdlib Require Import Permutation DecimalString DecimalPos DecimalN.
Import ListNotations.

Open Scope Z_scope.

(** ** Exceptions and outcomes *)

(** The two classes of raised objects the handler on line 147 tells apart. *)
Inductive pyexn : Type :=
| Exception_ (msg : string)       (* isinstance(e, Exception) *)
| BaseException_ (msg : string).  (* KeyboardInterrupt, SystemExit, ... *)

Definition is_Exception (e : pyexn) : bool :=
  match e with
  | Exception_ _ => true
  | BaseException_ _ => false
  end.

Inductive outcome (A : Type) : Type :=
| Return (a : A)
| Raise (e : pyexn).

Arguments Return {A} a.
Arguments Raise {A} e.

(** A call whose failures, if any, the handler [except Exception] catches. *)
Definition catchable {A : Type} (o : outcome A) : Prop :=
  match o with
  | Raise (BaseException_ _) => False
  | _ => True
  end.

(** ** Box coordinates and [int()] *)

(** A coordinate as the detector returns it: a floating-point number, which
    is a rational, a NaN or an infinity. *)
Inductive npfloat : Type :=
| Finite (q : Q)
| NaN
| PosInf
| NegInf.

(** [int(x)]: truncation toward zero; NaN and the infinities raise. *)
Definition py_int (x : npfloat) : outcome Z :=
  match x with
  | Finite q => Return (Z.quot (Qnum q) (Z.pos (Qden q)))
  | NaN => Raise (Exception_ "ValueError: cannot convert float NaN to integer")
  | PosInf | NegInf =>
      Raise (Exception_ "OverflowError: cannot convert float infinity to integer")
  end.

(** One row of the [boxes] array. *)
Record Box : Type := mkBox { bx1 : npfloat; by1 : npfloat; bx2 : npfloat; by2 : npfloat }.

(** [x1, y1, x2, y2 = map(int, box)]: the conversions run left to right and
    the first failure is raised. *)
Definition box_to_ints (b : Box) : outcome (Z * Z * Z * Z) :=
  match py_int (bx1 b) with
  | Raise e => Raise e
  | Return x1 =>
    match py_int (by1 b) with
    | Raise e => Raise e
    | Return y1 =>
      match py_int (bx2 b) with
      | Raise e => Raise e
      | Return x2 =>
        match py_int (by2 b) with
        | Raise e => Raise e
        | Return y2 => Return (x1, y1, x2, y2)
        end
      end
    end
  end.

(** ** Slicing *)

(** [slice(start, stop).indices(n)] for step 1: a negative bound counts from
    the end, then both bounds are clipped to [0, n]. *)
Definition slice_bound (n i : Z) : Z :=
  let i' := if i <? 0 then i + n else i in
  if i' <? 0 then 0 else if n <? i' then n else i'.

(** Lines 132-134: the box after the four [max]/[min] assignments. *)
Definition clamp_box (h w : Z) (b : Z * Z * Z * Z) : Z * Z * Z * Z :=
  let '(x1, y1, x2, y2) := b in
  (Z.max 0 x1, Z.max 0 y1, Z.min w x2, Z.min h y2).

(** ** Decision string *)

Definition dec_of_N (n : N) : string := NilZero.string_of_uint (N.to_uint n).

Definition two_digits (n : N) : string :=
  (if (n <? 10)%N then "0" else "")%string ++ dec_of_N n.

(** Nearest integer, ties to even. *)
Definition round_half_even (q : Q) : Z :=
  let f := Qfloor q in
  match (q - inject_Z f ?= 1 # 2)%Q with
  | Lt => f
  | Gt => f + 1
  | Eq => if Z.even f then f else f + 1
  end.

(** [f"{x:.2f}"]. *)
Definition format_2f (x : Q) : string :=
  let n := Z.to_N (round_half_even (Qabs x * 100)) in
  ((if Qlt_le_dec x 0 then "-" else "") ++
   dec_of_N (n / 100) ++ "." ++ two_digits (n mod 100))%string.

Inductive Label : Type := FAKE | REAL.

Inductive AggregateResult : Type :=
| NoEvidence
| Verdict (label : Label) (confidencePercent : Q).

(** ** Binary64 arithmetic *)

(** The binary exponent of a positive number: [2 ^ ilog2 x <= x < 2 ^ (ilog2 x + 1)]. *)
Definition ilog2 (x : Q) : Z :=
  let c := Z.log2 (Qnum x) - Z.log2 (Z.pos (Qden x)) in
  if Qle_bool (2 ^ c) x then c else c - 1.

(** The binary64 numbers next to a positive [x] are the multiples of
    [2 ^ quantum_exponent x]: 53 significant bits, and no exponent below
    that of the subnormal numbers. *)
Definition quantum_exponent (x : Q) : Z := Z.max (ilog2 x - 52) (-1074).

(** The binary64 number nearest to [x], ties to even, as a reduced
    fraction. *)
Definition round64 (x : Q) : Q :=
  let y := Qred (Qabs x) in
  if Qeq_bool y 0 then 0%Q
  else
    let q := (2 ^ quantum_exponent y)%Q in
    let r := Qred (inject_Z (round_half_even (y / q)) * q) in
    if Qlt_le_dec x 0 then (- r)%Q else r.

(** [x + y], [x - y], [x * y] and [x / y] on binary64 numbers. *)
Definition f64_add (x y : Q) : Q := round64 (x + y).
Definition f64_sub (x y : Q) : Q := round64 (x - y).
Definition f64_mul (x y : Q) : Q := round64 (x * y).
Definition f64_div (x y : Q) : Q := round64 (x / y).

(** An integer count as a binary64 number. *)
Definition f64_of_nat (n : nat) : Q := round64 (inject_Z (Z.of_nat n)).

(** The sum inside [np.mean]: the scores are added one after the other, in
    list order, to an accumulator that starts at zero. *)
Definition f64_sum (l : list Q) : Q := fold_left f64_add l 0%Q.

(** [np.mean(predictions)], for a non-empty list: the sum divided by the
    count. *)
Definition np_mean (l : list Q) : Q := f64_div (f64_sum l) (f64_of_nat (List.length l)).

(** The sum of the scores as numbers, without any rounding: the arithmetic
    mean of the specification is [Qsum l / n]. *)
Definition Qsum (l : list Q) : Q := fold_right Qplus 0%Q l.

(** Lines 153-163 up to the formatting: which of the three [return]s is
    taken, and with which number. *)
Definition aggregate (predictions : list Q) : AggregateResult :=
  match predictions with
  | [] => NoEvidence
  | _ :: _ =>
      let avg_score := np_mean predictions in
      let confidence := f64_mul avg_score 100 in
      if Qlt_le_dec (1 # 2) avg_score
      then Verdict FAKE confidence
      else Verdict REAL (f64_sub 100 confidence)
  end.

Definition no_face_message : string := "⚠️ No face detected in video."%string.

(** The three string literals of lines 154, 161 and 163. *)
Definition render (r : AggregateResult) : string :=
  match r with
  | NoEvidence => no_face_message
  | Verdict FAKE c => ("Video is " ++ format_2f c ++ "% likely to be a FAKE.")%string
  | Verdict REAL c => ("Video is " ++ format_2f c ++ "% likely to be REAL.")%string
  end.

(** Lines 153-163. *)
Definition decision_string (predictions : list Q) : string :=
  render (aggregate predictions).

(** ** The state-and-exception monad of the function body *)

Section Pipeline.

(** A decoded frame; only its shape is inspected by the function. *)
Variable Frame : Type.
(** [frame.shape[:2]], as (height, width). *)
Variable shape : Frame -> Z * Z.

(** [frame[y1:y2, x1:x2]]: the source frame and, per axis, the bounds the
    slice selects once normalised.  Frames read from a capture have three
    channels. *)
Record Face : Type := mkFace {
  face_source : Frame;
  row_lo : Z; row_hi : Z;
  col_lo : Z; col_hi : Z
}.

Definition crop (frame : Frame) (y1 y2 x1 x2 : Z) : Face :=
  let '(h, w) := shape frame in
  mkFace frame (slice_bound h y1) (slice_bound h y2)
               (slice_bound w x1) (slice_bound w x2).

(** [face.size]. *)
Definition face_size (f : Face) : Z :=
  Z.max 0 (row_hi f - row_lo f) * Z.max 0 (col_hi f - col_lo f) * 3.

(** [mtcnn.detect(frame)[0]]: [None], an array of boxes, or a raise. *)
Variable mtcnn_detect : Frame -> outcome (option (list Box)).
(** [torch.sigmoid(model(transform(face).unsqueeze(0).to(DEVICE))).item()]. *)
Variable score_face : Face -> outcome Q.

(** The locals that change while the function runs, and what happened to
    the capture. *)
Record PyState : Type := mkState {
  handle_open : bool;               (* the capture holds an open video *)
  release_calls : nat;              (* calls of cap.release() *)
  frames_read : list Frame;         (* frames cap.read() has returned *)
  predictions : list Q;
  warnings : list (Z * pyexn)       (* line 148: frame index and error *)
}.

Definition initial_state : PyState := mkState false 0%nat [] [] [].

Definition M (A : Type) : Type := PyState -> outcome A * PyState.

Definition ret {A : Type} (a : A) : M A := fun st => (Return a, st).

Definition bind {A B : Type} (c : M A) (k : A -> M B) : M B :=
  fun st =>
    match c st with
    | (Return a, st') => k a st'
    | (Raise e, st') => (Raise e, st')
    end.

(** A call of a collaborator, which leaves the locals alone. *)
Definition call {A : Type} (o : outcome A) : M A := fun st => (o, st).

(** [try: body  except Exception as e: handler(e)]. *)
Definition try_except_Exception (body : M unit) (handler : pyexn -> M unit) : M unit :=
  fun st =>
    match body st with
    | (Return tt, st') => (Return tt, st')
    | (Raise e, st') => if is_Exception e then handler e st' else (Raise e, st')
    end.

Notation "x <- c ;; k" := (bind c (fun x => k))
  (at level 61, c at next level, right associativity).
Notation "c ;;; k" := (bind c (fun _ => k))
  (at level 61, right associativity).

(** [predictions.append(pred)]. *)
Definition append_prediction (pred : Q) : M unit :=
  fun st => (Return tt,
             mkState (handle_open st) (release_calls st) (frames_read st)
                     (predictions st ++ [pred]) (warnings st)).

Definition warn (idx : Z) (e : pyexn) : M unit :=
  fun st => (Return tt,
             mkState (handle_open st) (release_calls st) (frames_read st)
                     (predictions st) (warnings st ++ [(idx, e)])).

Definition note_read (frame : Frame) (st : PyState) : PyState :=
  mkState (handle_open st) (release_calls st) (frames_read st ++ [frame])
          (predictions st) (warnings st).

Definition open_handle (st : PyState) : PyState :=
  mkState true (release_calls st) (frames_read st) (predictions st) (warnings st).

(** [cap.release()]. *)
Definition release (st : PyState) : PyState :=
  mkState false (S (release_calls st)) (frames_read st) (predictions st) (warnings st).

(** ** The body of the loop *)

(** Lines 129-145: one iteration of [for box in boxes]. *)
Definition process_box (frame : Frame) (box : Box) : M unit :=
  ints <- call (box_to_ints box) ;;
  let '(h, w) := shape frame in
  let '(x1, y1, x2, y2) := clamp_box h w ints in
  let face := crop frame y1 y2 x1 x2 in
  if face_size face =? 0 then ret tt
  else
    pred <- call (score_face face) ;;
    append_prediction pred.

(** Lines 128-145. *)
Fixpoint for_boxes (frame : Frame) (boxes : list Box) : M unit :=
  match boxes with
  | [] => ret tt
  | box :: rest => process_box frame box ;;; for_boxes frame rest
  end.

(** Lines 124-145: the body of the [try]. *)
Definition try_body (frame : Frame) : M unit :=
  boxes <- call (mtcnn_detect frame) ;;
  match boxes with
  | None => ret tt
  | Some bs => for_boxes frame bs
  end.

(** Lines 123-149. *)
Definition process_frame (idx : Z) (frame : Frame) : M unit :=
  try_except_Exception (try_body frame) (fun face_error => warn idx face_error).

(** ** The video and the sampling loop *)

(** What [cv2.VideoCapture(video_path)] finds: whether the source opens,
    the value of [int(cap.get(cv2.CAP_PROP_FRAME_COUNT))], and what
    successive calls of [cap.read()] do.  Past the end of [stream],
    [cap.read()] returns [(False, None)]. *)
Record Video : Type := mkVideo {
  openable : bool;
  reported_frame_count : Z;
  stream : list (outcome Frame)
}.

(** Lines 116-149; [pending] is what the capture has not delivered yet. *)
Fixpoint sampling_loop (frames_to_process idx : Z) (pending : list (outcome Frame))
  : M unit :=
  fun st =>
    if idx <? frames_to_process then
      match pending with
      | [] => (Return tt, st)
      | Raise e :: _ => (Raise e, st)
      | Return frame :: rest =>
          let idx := idx + 1 in
          match process_frame idx frame (note_read frame st) with
          | (Return tt, st') => sampling_loop frames_to_process idx rest st'
          | (Raise e, st') => (Raise e, st')
          end
      end
    else (Return tt, st).

(** Lines 104-163. *)
Definition predict_on_video (video : Video) (max_frames : Z) : outcome string * PyState :=
  if negb (openable video)
  then (Raise (Exception_ "Could not open video file"), initial_state)
  else
    let frame_count := reported_frame_count video in
    let frames_to_process := Z.min max_frames frame_count in
    match sampling_loop frames_to_process 0 (stream video) (open_handle initial_state) with
    | (Raise e, st) => (Raise e, st)
    | (Return tt, st) =>
        let st := release st in
        (Return (decision_string (predictions st)), st)
    end.

(** ** What one box and one frame contribute

    The same computation as [process_box], [for_boxes] and [try_body],
    read off as values: these are the terms in which the results below
    describe the final [predictions]. *)

(** One box taken alone: a raise, a discarded empty crop, or a score. *)
Definition crop_score (frame : Frame) (box : Box) : outcome (option Q) :=
  match box_to_ints box with
  | Raise e => Raise e
  | Return ints =>
      let '(h, w) := shape frame in
      let '(x1, y1, x2, y2) := clamp_box h w ints in
      let face := crop frame y1 y2 x1 x2 in
      if face_size face =? 0 then Return None
      else match score_face face with
           | Raise e => Raise e
           | Return pred => Return (Some pred)
           end
  end.

(** Scores appended by [for box in boxes] before it ends or raises. *)
Fixpoint scores_until_failure (frame : Frame) (boxes : list Box) : list Q :=
  match boxes with
  | [] => []
  | box :: rest =>
      match crop_score frame box with
      | Raise _ => []
      | Return None => scores_until_failure frame rest
      | Return (Some pred) => pred :: scores_until_failure frame rest
      end
  end.

(** How [for box in boxes] ends: normally, or with the first raise. *)
Fixpoint boxes_outcome (frame : Frame) (boxes : list Box) : outcome unit :=
  match boxes with
  | [] => Return tt
  | box :: rest =>
      match crop_score frame box with
      | Raise e => Raise e
      | Return _ => boxes_outcome frame rest
      end
  end.

Definition frame_scores (frame : Frame) : list Q :=
  match mtcnn_detect frame with
  | Return (Some boxes) => scores_until_failure frame boxes
  | _ => []
  end.

Definition try_outcome (frame : Frame) : outcome unit :=
  match mtcnn_detect frame with
  | Raise e => Raise e
  | Return None => Return tt
  | Return (Some boxes) => boxes_outcome frame boxes
  end.

(** The per-crop recovery of the specification (sections 4.3, 4.4 and 7):
    a crop whose conversion or classification fails is skipped and the
    remaining crops of the frame are still scored. *)
Fixpoint scores_skipping_failed_crops (frame : Frame) (boxes : list Box) : list Q :=
  match boxes with
  | [] => []
  | box :: rest =>
      match crop_score frame box with
      | Return (Some pred) => pred :: scores_skipping_failed_crops frame rest
      | _ => scores_skipping_failed_crops frame rest
      end
  end.

Definition frame_scores_spec (frame : Frame) : list Q :=
  match mtcnn_detect frame with
  | Return (Some boxes) => scores_skipping_failed_crops frame boxes
  | _ => []
  end.

(** A raise that nothing in the function catches: a failing [cap.read()], or
    a frame whose [try] body raises something that is not an [Exception]. *)
Definition uncaught (ev : outcome Frame) (e : pyexn) : Prop :=
  match ev with
  | Raise e' => e' = e
  | Return frame => try_outcome frame = Raise e /\ is_Exception e = false
  end.

(** State after appending [l] to [predictions]. *)
Definition add_predictions (l : list Q) (st : PyState) : PyState :=
  mkState (handle_open st) (release_calls st) (frames_read st)
          (predictions st ++ l) (warnings st).

End Pipeline.

Arguments mkFace {Frame}.
Arguments face_source {Frame}.
Arguments row_lo {Frame}.
Arguments row_hi {Frame}.
Arguments col_lo {Frame}.
Arguments col_hi {Frame}.
Arguments mkState {Frame}.
Arguments handle_open {Frame}.
Arguments release_calls {Frame}.
Arguments frames_read {Frame}.
Arguments predictions {Frame}.
Arguments warnings {Frame}.
Arguments mkVideo {Frame}.
Arguments openable {Frame}.
Arguments reported_frame_count {Frame}.
Arguments stream {Frame}.
Arguments initial_state {Frame}.
Arguments crop {Frame}.
Arguments face_size {Frame}.
Arguments add_predictions {Frame}.
Arguments note_read {Frame}.
Arguments open_handle {Frame}.
Arguments release {Frame}.
Arguments process_box {Frame}.
Arguments for_boxes {Frame}.
Arguments try_body {Frame}.
Arguments process_frame {Frame}.
Arguments sampling_loop {Frame}.
Arguments predict_on_video {Frame}.
Arguments crop_score {Frame}.
Arguments scores_until_failure {Frame}.
Arguments boxes_outcome {Frame}.
Arguments frame_scores {Frame}.
Arguments try_outcome {Frame}.
Arguments uncaught {Frame}.
Arguments scores_skipping_failed_crops {Frame}.
Arguments frame_scores_spec {Frame}.

(** A verdict is the same when label and confidence agree as numbers. *)
Definition same_result (r r' : AggregateResult) : Prop :=
  match r, r' with
  | NoEvidence, NoEvidence => True
  | Verdict l c, Verdict l' c' => l = l' /\ (c == c')%Q
  | _, _ => False
  end.

(** ** Concrete videos *)

Module Scenario.

(** A frame that carries the answers of the collaborators: its shape, what
    the detector does on it, and what the scoring chain does on the crop
    with the given row and column bounds. *)
Record TestFrame : Type := mkTestFrame {
  tf_height : Z;
  tf_width : Z;
  tf_detect : outcome (option (list Box));
  tf_score : Z -> Z -> Z -> Z -> outcome Q
}.

Definition tf_shape (f : TestFrame) : Z * Z := (tf_height f, tf_width f).

Definition tf_score_face (face : Face TestFrame) : outcome Q :=
  tf_score (face_source face) (row_lo face) (row_hi face) (col_lo face) (col_hi face).

Definition run (video : Video TestFrame) (max_frames : Z) : outcome string * PyState TestFrame :=
  predict_on_video tf_shape tf_detect tf_score_face video max_frames.

Definition box_of_Z (x1 y1 x2 y2 : Z) : Box :=
  mkBox (Finite (inject_Z x1)) (Finite (inject_Z y1))
        (Finite (inject_Z x2)) (Finite (inject_Z y2)).

Definition always (q : Q) : Z -> Z -> Z -> Z -> outcome Q := fun _ _ _ _ => Return q.

(** A 100x100 frame with one face inside the frame, scored 9/10. *)
Definition plain_frame : TestFrame :=
  mkTestFrame 100 100 (Return (Some [box_of_Z 10 10 50 50])) (always (9 # 10)).

(** A 100x100 frame on which the detector finds nothing. *)
Definition empty_frame : TestFrame :=
  mkTestFrame 100 100 (Return None) (always (9 # 10)).

(** A 100x100 frame whose only box lies wholly to the left of the frame. *)
Definition left_of_frame : TestFrame :=
  mkTestFrame 100 100 (Return (Some [box_of_Z (-20) 10 (-10) 50])) (always (9 # 10)).

(** A 100x100 frame whose only box has a NaN coordinate. *)
Definition nan_box_frame : TestFrame :=
  mkTestFrame 100 100
    (Return (Some [mkBox NaN (Finite 10) (Finite 50) (Finite 50)])) (always (9 # 10)).

(** A 100x100 frame with two faces: scoring the first one (columns 10-50)
    fails, the second one (columns 60-90) scores 9/10. *)
Definition first_crop_fails : TestFrame :=
  mkTestFrame 100 100
    (Return (Some [box_of_Z 10 10 50 50; box_of_Z 60 10 90 50]))
    (fun _ _ c_lo _ =>
       if c_lo =? 10 then Raise (Exception_ "RuntimeError: classification failed")
       else Return (9 # 10)).

(** A frame during whose detection the process is interrupted. *)
Definition interrupted : TestFrame :=
  mkTestFrame 100 100 (Raise (BaseException_ "KeyboardInterrupt")) (always (9 # 10)).

(** A classifier that returns the same score for every crop. *)
Definition constant_score (q : Q) : Face TestFrame -> outcome Q := fun _ => Return q.

(** A classifier that answers like [tf_score_face] on a crop with at least
    one row and one column, and fails on an empty one. *)
Definition rejects_empty_crops (face : Face TestFrame) : outcome Q :=
  if (row_lo face <? row_hi face) && (col_lo face <? col_hi face)
  then tf_score_face face
  else Raise (Exception_ "ValueError: empty crop").

(** A frame on which detection itself fails. *)
Definition detect_fails : TestFrame :=
  mkTestFrame 100 100 (Raise (Exception_ "RuntimeError: detection failed")) (always (9 # 10)).

Definition video_of (frames : list TestFrame) : Video TestFrame :=
  mkVideo true (Z.of_nat (List.length frames)) (map Return frames).

(** A video that opens, reports three frames, and whose second read raises. *)
Definition broken_read : Video TestFrame :=
  mkVideo true 3
    [Return plain_frame; Raise (Exception_ "cv2.error: decoder failure"); Return plain_frame].

Definition unopenable : Video TestFrame := mkVideo false 0 [].

End Scenario.

(** * The upload endpoint (app.py, lines 82-85 and 169-232)

    Python strings are byte strings in UTF-8; the dot is one byte, so
    searching for it and splitting at it act on bytes as on characters.
    [str.lower()], [secure_filename] and the order in which the set
    [ALLOWED_EXTENSIONS] is listed are taken as parameters. *)

Definition UPLOAD_FOLDER : string := "uploads".

Definition ALLOWED_EXTENSIONS : list string := ["mp4"; "avi"; "mov"; "mkv"; "webm"]%string.

(** [c in s]. *)
Fixpoint str_contains (c : ascii) (s : string) : bool :=
  match s with
  | EmptyString => false
  | String a rest => Ascii.eqb a c || str_contains c rest
  end.

(** The two sides of the last occurrence of [c] in [s], if there is one. *)
Fixpoint rsplit_last (c : ascii) (s : string) : option (string * string) :=
  match s with
  | EmptyString => None
  | String a rest =>
      match rsplit_last c rest with
      | Some (head, tail) => Some (String a head, tail)
      | None => if Ascii.eqb a c then Some (EmptyString, rest) else None
      end
  end.

(** [s.rsplit(c, 1)]. *)
Definition rsplit1 (c : ascii) (s : string) : list string :=
  match rsplit_last c s with
  | Some (head, tail) => [head; tail]
  | None => [s]
  end.

(** [x in ALLOWED_EXTENSIONS]. *)
Definition in_allowed_extensions (x : string) : bool :=
  existsb (String.eqb x) ALLOWED_EXTENSIONS.

(** [str.lower()] on a string of ASCII characters. *)
Definition ascii_lower_char (a : ascii) : ascii :=
  let n := nat_of_ascii a in
  if ((65 <=? n) && (n <=? 90))%nat then ascii_of_nat (n + 32) else a.

Fixpoint ascii_lower (s : string) : string :=
  match s with
  | EmptyString => EmptyString
  | String a rest => String (ascii_lower_char a) (ascii_lower rest)
  end.

Fixpoint is_ascii (s : string) : bool :=
  match s with
  | EmptyString => true
  | String a rest => (nat_of_ascii a <? 128)%nat && is_ascii rest
  end.

(** [os.path.join(a, b)] on POSIX, for [a] not empty and not ending in a
    slash. *)
Definition os_path_join (a b : string) : string :=
  match b with
  | String first _ => if Ascii.eqb first "/" then b else (a ++ "/" ++ b)%string
  | EmptyString => (a ++ "/")%string
  end.

(** The files of the file system, by path. *)
Definition FS : Type := string -> bool.

Definition fs_add (path : string) (fs : FS) : FS :=
  fun p => if String.eqb p path then true else fs p.

Definition fs_del (path : string) (fs : FS) : FS :=
  fun p => if String.eqb p path then false else fs p.

(** [jsonify(...), status]. *)
Record Response : Type := mkResponse {
  body : list (string * string);
  status : Z
}.

Definition error_reply (message : string) (code : Z) : Response :=
  mkResponse [("error"%string, message)] code.

(** [str(e)]. *)
Definition exn_text (e : pyexn) : string :=
  match e with
  | Exception_ msg => msg
  | BaseException_ msg => msg
  end.

(** Lines 228-232: the handler of the outer [try]. *)
Definition outer_handler (e : pyexn) : outcome Response :=
  if is_Exception e
  then Return (error_reply ("Server error: " ++ exn_text e) 500)
  else Raise e.

(** Lines 217-224: the [finally] block.  [remove_error] is the [OSError]
    that [os.remove] raises, if it does. *)
Definition cleanup (file_path : string) (remove_error : option string) (fs : FS) : FS :=
  if fs file_path
  then match remove_error with
       | None => fs_del file_path fs
       | Some _ => fs
       end
  else fs.

Section Endpoint.

Variable Frame : Type.
Variable shape : Frame -> Z * Z.
Variable mtcnn_detect : Frame -> outcome (option (list Box)).
Variable score_face : Face Frame -> outcome Q.

(** [str.lower]. *)
Variable str_lower : string -> string.
(** [werkzeug.utils.secure_filename]. *)
Variable secure_filename : string -> string.
(** [", ".join(ALLOWED_EXTENSIONS)]: the extensions in the order in which
    the set happens to list them. *)
Variable extension_listing : string.

(** Lines 82-85.  The second operand is evaluated only when the name holds
    a dot, and then the split has two parts. *)
Definition allowed_file (filename : string) : bool :=
  str_contains "." filename &&
  match nth_error (rsplit1 "." filename) 1 with
  | Some extension => in_allowed_extensions (str_lower extension)
  | None => false
  end.

(** The value of [request.files['file']]: the client's file name, what [file.save] does
    (and whether a failed save leaves a file behind), and the video that
    [cv2.VideoCapture] finds in the saved file. *)
Record FileStorage : Type := mkFileStorage {
  filename : string;
  save_result : outcome unit;
  partial_file : bool;
  capture : Video Frame
}.

(** What one request leaves: the reply (or the raise that escapes), the
    file system, and the run of [predict_on_video] if there was one. *)
Record Served : Type := mkServed {
  reply : outcome Response;
  files_after : FS;
  inference : option (outcome string * PyState Frame)
}.

(** Lines 195-196. *)
Definition upload_path (uuid4 : string) (client_name : string) : string :=
  let unique_filename := (uuid4 ++ "_" ++ secure_filename client_name)%string in
  os_path_join UPLOAD_FOLDER unique_filename.

(** Lines 170-232.  [request_files] is what reading [request.files] gives:
    the file stored under the key ['file'], if any, or the raise of the form
    parser (as for a body over [MAX_CONTENT_LENGTH]); [uuid4] is the text of
    [uuid.uuid4()]. *)
Definition predict (request_files : outcome (option FileStorage)) (uuid4 : string)
           (remove_error : option string) (fs : FS) : Served :=
  match request_files with
  | Raise e => mkServed (outer_handler e) fs None
  | Return None =>
      mkServed (Return (error_reply "No file part in the request." 400)) fs None
  | Return (Some file) =>
      if String.eqb (filename file) ""
      then mkServed (Return (error_reply "No file selected for upload." 400)) fs None
      else if negb (allowed_file (filename file))
      then mkServed
             (Return (error_reply ("Invalid file type. Allowed types: " ++ extension_listing)
                                  400))
             fs None
      else
        let file_path := upload_path uuid4 (filename file) in
        match save_result file with
        | Raise e =>
            mkServed (outer_handler e)
                     (if partial_file file then fs_add file_path fs else fs) None
        | Return tt =>
            let saved := fs_add file_path fs in
            let run := predict_on_video shape mtcnn_detect score_face (capture file) 50 in
            let cleaned := cleanup file_path remove_error saved in
            match fst run with
            | Return prediction_result =>
                mkServed
                  (Return (mkResponse [("prediction_result"%string, prediction_result)] 200))
                  cleaned (Some run)
            | Raise inference_error =>
                if is_Exception inference_error
                then mkServed
                       (Return (error_reply
                                  ("Model inference failed: " ++ exn_text inference_error) 500))
                       cleaned (Some run)
                else mkServed (Raise inference_error) cleaned (Some run)
            end
        end
  end.

End Endpoint.

Arguments mkFileStorage {Frame}.
Arguments filename {Frame}.
Arguments save_result {Frame}.
Arguments partial_file {Frame}.
Arguments capture {Frame}.
Arguments mkServed {Frame}.
Arguments reply {Frame}.
Arguments files_after {Frame}.
Arguments inference {Frame}.
Arguments predict {Frame}.

(** * The testing server (app_simple.py)

    [allowed_file] and the constants are the same text as in app.py. *)

Module AppSimple.

(** Lines 37-56.  [confidence] is the draw of [random.uniform(70, 95)],
    [is_fake] the draw of [random.choice([True, False])]. *)
Definition mock_predict_on_video (confidence : Q) (is_fake : bool) : string :=
  if is_fake
  then ("Video is " ++ format_2f confidence ++ "% likely to be a FAKE.")%string
  else ("Video is " ++ format_2f (100 - confidence) ++ "% likely to be REAL.")%string.

Section Endpoint.

Variable Frame : Type.
Variable str_lower : string -> string.
Variable secure_filename : string -> string.
Variable extension_listing : string.

(** Lines 62-121. *)
Definition predict (request_files : outcome (option (FileStorage Frame))) (uuid4 : string)
           (remove_error : option string) (confidence : Q) (is_fake : bool)
           (fs : FS) : Served Frame :=
  match request_files with
  | Raise e => mkServed (outer_handler e) fs None
  | Return None =>
      mkServed (Return (error_reply "No file part in the request." 400)) fs None
  | Return (Some file) =>
      if String.eqb (filename file) ""
      then mkServed (Return (error_reply "No file selected for upload." 400)) fs None
      else if negb (allowed_file str_lower (filename file))
      then mkServed
             (Return (error_reply ("Invalid file type. Allowed types: " ++ extension_listing)
                                  400))
             fs None
      else
        let file_path := upload_path secure_filename uuid4 (filename file) in
        match save_result file with
        | Raise e =>
            mkServed (outer_handler e)
                     (if partial_file file then fs_add file_path fs else fs) None
        | Return tt =>
            let saved := fs_add file_path fs in
            let prediction_result := mock_predict_on_video confidence is_fake in
            let cleaned := cleanup file_path remove_error saved in
            mkServed
              (Return (mkResponse [("prediction_result"%string, prediction_result)] 200))
              cleaned None
        end
  end.

End Endpoint.

Arguments predict {Frame}.

End AppSimple.

(** * Accounts of a run *)

Section Accounts.

Variable Frame : Type.
Variable shape : Frame -> Z * Z.
Variable mtcnn_detect : Frame -> outcome (option (list Box)).
Variable score_face : Face Frame -> outcome Q.

(** The warnings line 148 prints for [frames], the frame read before them
    having index [idx]. *)
Fixpoint logged_failures (idx : Z) (frames : list Frame) : list (Z * pyexn) :=
  match frames with
  | [] => []
  | frame :: rest =>
      match try_outcome shape mtcnn_detect score_face frame with
      | Raise e =>
          if is_Exception e
          then (idx + 1, e) :: logged_failures (idx + 1) rest
          else logged_failures (idx + 1) rest
      | Return _ => logged_failures (idx + 1) rest
      end
  end.

(** Number of boxes the detector returns on a frame. *)
Definition boxes_detected (frame : Frame) : nat :=
  match mtcnn_detect frame with
  | Return (Some boxes) => List.length boxes
  | _ => 0%nat
  end.

End Accounts.

Arguments logged_failures {Frame}.
Arguments boxes_detected {Frame}.

(** ** Concrete requests *)

Module Upload.

Definition lower := ascii_lower.
Definition secure (name : string) : string := name.
Definition listing : string := "mp4, avi, mov, mkv, webm".

Definition serve (request_files : outcome (option (FileStorage Scenario.TestFrame)))
           (uuid4 : string) (remove_error : option string) (fs : FS)
  : Served Scenario.TestFrame :=
  predict Scenario.tf_shape Scenario.tf_detect Scenario.tf_score_face
          lower secure listing request_files uuid4 remove_error fs.

Definition empty_fs : FS := fun _ => false.

Definition uuid_a : string := "123e4567-e89b-42d3-a456-426614174000".
Definition uuid_b : string := "9b2c7d1e-5f3a-4c8b-8e21-0a1b2c3d4e5f".

(** An upload named [name] whose save succeeds and in which the capture
    finds [video]. *)
Definition upload (name : string) (video : Video Scenario.TestFrame)
  : FileStorage Scenario.TestFrame :=
  mkFileStorage name (Return tt) false video.

(** The upload of test_api.py, lines 51-56: text named as a video. *)
Definition mock_mp4 : FileStorage Scenario.TestFrame :=
  upload "test_video.mp4" Scenario.unopenable.

(** The upload of test_api.py, lines 78-82. *)
Definition text_file : FileStorage Scenario.TestFrame :=
  upload "test_file.txt" Scenario.unopenable.

End Upload.

(** * Facts about the aggregation step *)

(** ** Powers of two *)

Lemma pow2_pos (k : Z) : (0 < 2 ^ k)%Q.
Proof. apply Qpower_0_lt. reflexivity. Qed.

Lemma pow2_plus (a b : Z) : (2 ^ (a + b) == 2 ^ a * 2 ^ b)%Q.
Proof. apply Qpower_plus. discriminate. Qed.

Lemma pow2_le (a b : Z) : a <= b -> (2 ^ a <= 2 ^ b)%Q.
Proof. intros H. apply Qpower_le_compat_l; [exact H | discriminate]. Qed.

Lemma pow2_lt (a b : Z) : a < b -> (2 ^ a < 2 ^ b)%Q.
Proof. intros H. apply Qpower_lt_compat_l; [exact H | reflexivity]. Qed.

Lemma pow2_lt_inv (a b : Z) : (2 ^ a < 2 ^ b)%Q -> a < b.
Proof. intros H. apply (Qpower_lt_compat_l_inv 2); [exact H | reflexivity]. Qed.

Lemma pow2_inject (n : Z) : 0 <= n -> (2 ^ n == inject_Z (2 ^ n))%Q.
Proof. intros H. rewrite (Zpower_Qpower 2 n H). reflexivity. Qed.

(** ** Rounding to an integer *)

Lemma round_half_even_Qeq (x y : Q) : (x == y)%Q -> round_half_even x = round_half_even y.
Proof.
  intros H. unfold round_half_even.
  rewrite (Qfloor_comp _ _ H).
  assert (E : (x - inject_Z (Qfloor y) ?= 1 # 2)%Q = (y - inject_Z (Qfloor y) ?= 1 # 2)%Q).
  { apply Qcompare_comp; [rewrite H; reflexivity | reflexivity]. }
  rewrite E. reflexivity.
Qed.

Lemma round_half_even_bounds (q : Q) :
  Qfloor q <= round_half_even q /\ round_half_even q <= Qfloor q + 1.
Proof.
  unfold round_half_even.
  destruct (q - inject_Z (Qfloor q) ?= 1 # 2)%Q; [destruct (Z.even (Qfloor q)) | |]; lia.
Qed.

Lemma round_half_even_Z (z : Z) : round_half_even (inject_Z z) = z.
Proof.
  unfold round_half_even. rewrite Qfloor_Z.
  assert (E : (inject_Z z - inject_Z z ?= 1 # 2)%Q = Lt).
  { apply Qlt_alt. apply Qle_lt_trans with (y := 0%Q); [| reflexivity].
    apply Qle_minus_iff. ring_simplify. apply Qle_refl. }
  rewrite E. reflexivity.
Qed.

Lemma round_half_even_mono (a b : Q) : (a <= b)%Q -> round_half_even a <= round_half_even b.
Proof.
  intros H. pose proof (Qfloor_resp_le _ _ H) as Hf.
  pose proof (round_half_even_bounds a) as [_ Ha].
  pose proof (round_half_even_bounds b) as [Hb _].
  destruct (Z.eq_dec (Qfloor a) (Qfloor b)) as [E | Hne]; [| lia].
  unfold round_half_even. rewrite E.
  set (f := Qfloor b).
  destruct (Qcompare_spec (a - inject_Z f) (1 # 2)) as [Ea | La | Ga];
    destruct (Qcompare_spec (b - inject_Z f) (1 # 2)) as [Eb | Lb | Gb];
    try (destruct (Z.even f)); try lia; exfalso; lra.
Qed.

(** The rounded integer is within one half of the number. *)
Lemma round_half_even_error (a : Q) :
  (inject_Z (round_half_even a) - a <= 1 # 2 /\ a - inject_Z (round_half_even a) <= 1 # 2)%Q.
Proof.
  unfold round_half_even. set (f := Qfloor a).
  pose proof (Qfloor_le a) as H1. pose proof (Qlt_floor a) as H2. fold f in H1, H2.
  rewrite inject_Z_plus in H2. change (inject_Z 1) with 1%Q in H2.
  destruct (Qcompare_spec (a - inject_Z f) (1 # 2)) as [E | L | G].
  - destruct (Z.even f); [| rewrite inject_Z_plus; change (inject_Z 1) with 1%Q]; split; lra.
  - split; lra.
  - rewrite inject_Z_plus. change (inject_Z 1) with 1%Q. split; lra.
Qed.

(** ** The binary exponent *)

Lemma ilog2_spec (x : Q) :
  (0 < x)%Q -> (2 ^ ilog2 x <= x /\ x < 2 ^ (ilog2 x + 1))%Q.
Proof.
  intros Hx. destruct x as [n d].
  assert (Hn : 0 < n).
  { unfold Qlt in Hx. simpl in Hx. lia. }
  unfold ilog2. simpl Qnum. simpl Qden.
  set (a := Z.log2 n). set (b := Z.log2 (Z.pos d)).
  destruct (Z.log2_spec n Hn) as [A1 A2]. fold a in A1, A2.
  destruct (Z.log2_spec (Z.pos d) (Pos2Z.is_pos d)) as [B1 B2]. fold b in B1, B2.
  assert (Ha : 0 <= a) by apply Z.log2_nonneg.
  assert (Hb : 0 <= b) by apply Z.log2_nonneg.
  assert (QA1 : (2 ^ a <= inject_Z n)%Q).
  { rewrite (pow2_inject a Ha). rewrite <- Zle_Qle. exact A1. }
  assert (QA2 : (inject_Z n < 2 ^ (a + 1))%Q).
  { rewrite (pow2_inject (a + 1)) by lia. rewrite <- Zlt_Qlt. exact A2. }
  assert (QB1 : (2 ^ b <= inject_Z (Z.pos d))%Q).
  { rewrite (pow2_inject b Hb). rewrite <- Zle_Qle. exact B1. }
  assert (QB2 : (inject_Z (Z.pos d) < 2 ^ (b + 1))%Q).
  { rewrite (pow2_inject (b + 1)) by lia. rewrite <- Zlt_Qlt. exact B2. }
  assert (Hd : (0 < inject_Z (Z.pos d))%Q) by reflexivity.
  assert (Ex : (n # d == inject_Z n / inject_Z (Z.pos d))%Q) by apply Qmake_Qdiv.
  assert (Lo : (2 ^ (a - b - 1) < n # d)%Q).
  { rewrite Ex. apply Qlt_shift_div_l; [exact Hd |].
    apply Qlt_le_trans with (y := (2 ^ (a - b - 1) * 2 ^ (b + 1))%Q).
    - apply Qmult_lt_l; [apply pow2_pos | exact QB2].
    - rewrite <- pow2_plus. replace (a - b - 1 + (b + 1)) with a by lia. exact QA1. }
  assert (Hi : (n # d < 2 ^ (a - b + 1))%Q).
  { rewrite Ex. apply Qlt_shift_div_r; [exact Hd |].
    apply Qlt_le_trans with (y := (2 ^ (a + 1))%Q); [exact QA2 |].
    replace (a + 1) with (a - b + 1 + b) by lia. rewrite pow2_plus.
    apply Qmult_le_l; [apply pow2_pos | exact QB1]. }
  destruct (Qle_bool (2 ^ (a - b)) (n # d)) eqn:E.
  - apply Qle_bool_iff in E. split; [exact E | exact Hi].
  - assert (L : (n # d < 2 ^ (a - b))%Q).
    { apply Qnot_le_lt. intros H. apply Qle_bool_iff in H. congruence. }
    replace (a - b - 1 + 1) with (a - b) by lia. split; [apply Qlt_le_weak; exact Lo | exact L].
Qed.

Lemma ilog2_unique (x : Q) (e : Z) :
  (0 < x)%Q -> (2 ^ e <= x)%Q -> (x < 2 ^ (e + 1))%Q -> ilog2 x = e.
Proof.
  intros Hx Hlo Hhi. destruct (ilog2_spec x Hx) as [Ilo Ihi].
  assert (H1 : e < ilog2 x + 1).
  { apply pow2_lt_inv. apply Qle_lt_trans with (y := x); assumption. }
  assert (H2 : ilog2 x < e + 1).
  { apply pow2_lt_inv. apply Qle_lt_trans with (y := x); assumption. }
  lia.
Qed.

Lemma ilog2_Qeq (x y : Q) : (0 < x)%Q -> (x == y)%Q -> ilog2 x = ilog2 y.
Proof.
  intros Hx E. symmetry.
  assert (Hy : (0 < y)%Q) by (rewrite <- E; exact Hx).
  destruct (ilog2_spec x Hx) as [Ilo Ihi].
  apply ilog2_unique; [exact Hy | rewrite <- E; exact Ilo | rewrite <- E; exact Ihi].
Qed.

Lemma ilog2_mono (x y : Q) : (0 < x)%Q -> (x <= y)%Q -> ilog2 x <= ilog2 y.
Proof.
  intros Hx Hxy.
  assert (Hy : (0 < y)%Q) by (apply Qlt_le_trans with (y := x); assumption).
  destruct (ilog2_spec x Hx) as [Xlo _]. destruct (ilog2_spec y Hy) as [_ Yhi].
  assert (H : ilog2 x < ilog2 y + 1).
  { apply pow2_lt_inv. apply Qle_lt_trans with (y := x); [exact Xlo |].
    apply Qle_lt_trans with (y := y); assumption. }
  lia.
Qed.

(** ** Rounding to binary64 *)

Lemma round64_zero (x : Q) : (x == 0)%Q -> round64 x = 0%Q.
Proof.
  intros E. unfold round64.
  assert (H : Qeq_bool (Qred (Qabs x)) 0 = true).
  { apply Qeq_bool_iff. rewrite Qred_correct, E. reflexivity. }
  rewrite H. reflexivity.
Qed.

Lemma round64_pos (x : Q) :
  (0 < x)%Q ->
  (round64 x ==
   inject_Z (round_half_even (x / 2 ^ quantum_exponent x)) * 2 ^ quantum_exponent x)%Q.
Proof.
  intros Hx. unfold round64.
  assert (Ey : (Qred (Qabs x) == x)%Q).
  { rewrite Qred_correct. apply Qabs_pos. apply Qlt_le_weak. exact Hx. }
  set (y := Qred (Qabs x)) in *.
  assert (H : Qeq_bool y 0 = false).
  { destruct (Qeq_bool y 0) eqn:E; [| reflexivity].
    apply Qeq_bool_iff in E. rewrite Ey in E. rewrite E in Hx. discriminate Hx. }
  rewrite H.
  assert (Eq : quantum_exponent y = quantum_exponent x).
  { unfold quantum_exponent. f_equal. f_equal. symmetry. apply ilog2_Qeq; [exact Hx |].
    symmetry. exact Ey. }
  rewrite Eq.
  destruct (Qlt_le_dec x 0) as [L | _].
  - exfalso. apply (Qlt_irrefl 0). apply Qlt_trans with (y := x); assumption.
  - rewrite Qred_correct.
    rewrite (round_half_even_Qeq (y / 2 ^ quantum_exponent x) (x / 2 ^ quantum_exponent x)).
    + reflexivity.
    + rewrite Ey. reflexivity.
Qed.

Lemma round64_Qeq (x y : Q) : (x == y)%Q -> round64 x = round64 y.
Proof.
  intros E. unfold round64.
  assert (Ea : Qred (Qabs x) = Qred (Qabs y)).
  { apply Qred_complete. rewrite E. reflexivity. }
  rewrite Ea.
  destruct (Qlt_le_dec x 0) as [Lx | Lx]; destruct (Qlt_le_dec y 0) as [Ly | Ly];
    try reflexivity; exfalso; rewrite E in Lx;
    apply (Qlt_irrefl 0); apply Qle_lt_trans with (y := y); assumption.
Qed.

Lemma round64_nonneg (x : Q) : (0 <= x)%Q -> (0 <= round64 x)%Q.
Proof.
  intros Hx. destruct (Qlt_le_dec 0 x) as [P | Z].
  - rewrite (round64_pos x P).
    apply Qmult_le_0_compat; [| apply Qlt_le_weak, pow2_pos].
    change 0%Q with (inject_Z 0). rewrite <- Zle_Qle.
    pose proof (round_half_even_bounds (x / 2 ^ quantum_exponent x)) as [B _].
    assert (F : 0 <= Qfloor (x / 2 ^ quantum_exponent x)).
    { change 0 with (Qfloor 0). apply Qfloor_resp_le.
      apply Qle_shift_div_l; [apply pow2_pos |]. rewrite Qmult_0_l. exact Hx. }
    lia.
  - rewrite (round64_zero x); [apply Qle_refl |]. apply Qle_antisym; assumption.
Qed.

Lemma round_half_even_le (q : Q) (z : Z) :
  (q <= inject_Z z)%Q -> round_half_even q <= z.
Proof.
  intros H. pose proof (Qfloor_resp_le _ _ H) as Hf. rewrite Qfloor_Z in Hf.
  destruct (Z.eq_dec (Qfloor q) z) as [E | Hne].
  - assert (Hcmp : (q - inject_Z z ?= 1 # 2)%Q = Lt).
    { apply Qlt_alt. apply Qle_lt_trans with (y := 0%Q); [| reflexivity].
      apply (Qplus_le_l _ _ (inject_Z z)). ring_simplify. exact H. }
    unfold round_half_even. cbv zeta. rewrite E, Hcmp. lia.
  - pose proof (round_half_even_bounds q). lia.
Qed.

Lemma round_half_even_ge (q : Q) (z : Z) :
  (inject_Z z <= q)%Q -> z <= round_half_even q.
Proof.
  intros H. pose proof (Qfloor_resp_le _ _ H) as Hf. rewrite Qfloor_Z in Hf.
  pose proof (round_half_even_bounds q). lia.
Qed.

(** A multiple of [2 ^ k] is a multiple of every smaller power of two. *)
Lemma grid_refine (j k k' : Z) :
  k' <= k -> (inject_Z j * 2 ^ k == inject_Z (j * 2 ^ (k - k')) * 2 ^ k')%Q.
Proof.
  intros H. rewrite inject_Z_mult, <- (pow2_inject (k - k')) by lia.
  rewrite <- Qmult_assoc, <- pow2_plus.
  replace (k - k' + k') with k by lia. reflexivity.
Qed.

Lemma div_pow2_le (x y : Q) (k : Z) : (x <= y * 2 ^ k)%Q -> (x / 2 ^ k <= y)%Q.
Proof. intros H. apply Qle_shift_div_r; [apply pow2_pos | exact H]. Qed.

Lemma div_pow2_ge (x y : Q) (k : Z) : (y * 2 ^ k <= x)%Q -> (y <= x / 2 ^ k)%Q.
Proof. intros H. apply Qle_shift_div_l; [apply pow2_pos | exact H]. Qed.

(** Rounding does not cross a number of the grid the rounding works on. *)
Lemma round64_le_grid (x : Q) (j k : Z) :
  (0 < x)%Q -> quantum_exponent x <= k -> (x <= inject_Z j * 2 ^ k)%Q ->
  (round64 x <= inject_Z j * 2 ^ k)%Q.
Proof.
  intros Hx Hk H. rewrite (round64_pos x Hx).
  rewrite (grid_refine j k (quantum_exponent x) Hk) in *.
  apply Qmult_le_r; [apply pow2_pos |]. rewrite <- Zle_Qle.
  apply round_half_even_le. apply div_pow2_le. exact H.
Qed.

Lemma round64_ge_grid (x : Q) (j k : Z) :
  (0 < x)%Q -> quantum_exponent x <= k -> (inject_Z j * 2 ^ k <= x)%Q ->
  (inject_Z j * 2 ^ k <= round64 x)%Q.
Proof.
  intros Hx Hk H. rewrite (round64_pos x Hx).
  rewrite (grid_refine j k (quantum_exponent x) Hk) in *.
  apply Qmult_le_r; [apply pow2_pos |]. rewrite <- Zle_Qle.
  apply round_half_even_ge. apply div_pow2_ge. exact H.
Qed.

Lemma quantum_exponent_le (x : Q) (k : Z) :
  (0 < x)%Q -> -1074 <= k -> (x < 2 ^ (k + 53))%Q -> quantum_exponent x <= k.
Proof.
  intros Hx Hk H. destruct (ilog2_spec x Hx) as [Lo _].
  assert (L : ilog2 x < k + 53).
  { apply pow2_lt_inv. apply Qle_lt_trans with (y := x); assumption. }
  unfold quantum_exponent. lia.
Qed.

(** Rounding is monotone on the non-negative numbers. *)
Lemma round64_mono (x y : Q) : (0 <= x)%Q -> (x <= y)%Q -> (round64 x <= round64 y)%Q.
Proof.
  intros Hx Hxy.
  destruct (Qlt_le_dec 0 x) as [Px | Zx].
  2:{ rewrite (round64_zero x) by (apply Qle_antisym; assumption).
      apply round64_nonneg. apply Qle_trans with (y := x); assumption. }
  assert (Py : (0 < y)%Q) by (apply Qlt_le_trans with (y := x); assumption).
  pose proof (ilog2_mono x y Px Hxy) as He.
  destruct (Z.eq_dec (quantum_exponent x) (quantum_exponent y)) as [E | Hne].
  - rewrite (round64_pos x Px), (round64_pos y Py), E.
    apply Qmult_le_r; [apply pow2_pos |]. rewrite <- Zle_Qle.
    apply round_half_even_mono.
    apply Qmult_le_r; [apply Qinv_lt_0_compat, pow2_pos | exact Hxy].
  - destruct (ilog2_spec x Px) as [_ Xhi]. destruct (ilog2_spec y Py) as [Ylo _].
    unfold quantum_exponent in Hne.
    assert (Hlt : ilog2 x < ilog2 y) by lia.
    assert (Hy : -1022 < ilog2 y) by lia.
    apply Qle_trans with (y := (inject_Z 1 * 2 ^ ilog2 y)%Q).
    + apply round64_le_grid; [exact Px | unfold quantum_exponent; lia |].
      rewrite Qmult_1_l. apply Qlt_le_weak. apply Qlt_le_trans with (y := (2 ^ (ilog2 x + 1))%Q);
        [exact Xhi | apply pow2_le; lia].
    + apply round64_ge_grid; [exact Py | unfold quantum_exponent; lia |].
      rewrite Qmult_1_l. exact Ylo.
Qed.

(** A multiple of [2 ^ k] with a significand of at most 53 bits is a
    binary64 number: rounding leaves it as it is. *)
Lemma round64_exact (j k : Z) :
  0 <= j <= 2 ^ 53 -> -1074 <= k -> (round64 (inject_Z j * 2 ^ k) == inject_Z j * 2 ^ k)%Q.
Proof.
  intros Hj Hk.
  destruct (Z.eq_dec j 0) as [-> | Hj0].
  { rewrite round64_zero; [| apply Qmult_0_l]. rewrite Qmult_0_l. reflexivity. }
  assert (Px : (0 < inject_Z j * 2 ^ k)%Q).
  { apply Qmult_lt_0_compat; [| apply pow2_pos].
    change 0%Q with (inject_Z 0). rewrite <- Zlt_Qlt. lia. }
  destruct (Z.eq_dec j (2 ^ 53)) as [-> | Hj53].
  - assert (E : (inject_Z (2 ^ 53) * 2 ^ k == inject_Z (2 ^ 52) * 2 ^ (k + 1))%Q).
    { rewrite (pow2_plus k 1). change (2 ^ 1)%Q with 2%Q.
      change (inject_Z (2 ^ 53)) with (inject_Z (2 ^ 52) * 2)%Q. ring. }
    rewrite (round64_Qeq _ _ E). rewrite E in Px. rewrite E.
    assert (Q : quantum_exponent (inject_Z (2 ^ 52) * 2 ^ (k + 1)) <= k + 1).
    { apply quantum_exponent_le; [exact Px | lia |].
      rewrite (pow2_plus (k + 1) 53), Qmult_comm.
      apply Qmult_lt_l; [apply pow2_pos | reflexivity]. }
    apply Qle_antisym;
      [apply round64_le_grid | apply round64_ge_grid]; try assumption; apply Qle_refl.
  - assert (Q : quantum_exponent (inject_Z j * 2 ^ k) <= k).
    { apply quantum_exponent_le; [exact Px | lia |].
      rewrite (pow2_plus k 53), Qmult_comm.
      apply Qmult_lt_l; [apply pow2_pos |].
      rewrite (pow2_inject 53) by lia. rewrite <- Zlt_Qlt. lia. }
    apply Qle_antisym;
      [apply round64_le_grid | apply round64_ge_grid]; try assumption; apply Qle_refl.
Qed.

(** The result of a rounding is a multiple of the quantum it was rounded
    on, hence of every smaller power of two. *)
Lemma round64_on_grid (x : Q) (k : Z) :
  (0 < x)%Q -> k <= quantum_exponent x ->
  exists z : Z, (round64 x == inject_Z z * 2 ^ k)%Q.
Proof.
  intros Hx Hk.
  exists (round_half_even (x / 2 ^ quantum_exponent x) * 2 ^ (quantum_exponent x - k)).
  rewrite (round64_pos x Hx). apply grid_refine. exact Hk.
Qed.

(** There is no binary64 number strictly between 1/2 and 1/2 + 2^-53. *)
Lemma round64_above_half (x : Q) :
  (0 <= x)%Q -> (1 # 2 < round64 x)%Q -> ((1 # 2) + 2 ^ (-53) <= round64 x)%Q.
Proof.
  intros Hx H.
  destruct (Qlt_le_dec 0 x) as [Px | Zx].
  2:{ rewrite (round64_zero x) in H by (apply Qle_antisym; assumption). discriminate H. }
  destruct (Z_lt_le_dec (ilog2 x) (-1)) as [Small | Large].
  - exfalso. apply (Qlt_not_le _ _ H).
    change (1 # 2)%Q with (inject_Z 1 * 2 ^ (-1))%Q.
    destruct (ilog2_spec x Px) as [_ Hi].
    apply round64_le_grid; [exact Px | unfold quantum_exponent; lia |].
    change (inject_Z 1 * 2 ^ (-1))%Q with (2 ^ (-1))%Q.
    apply Qlt_le_weak. apply Qlt_le_trans with (y := (2 ^ (ilog2 x + 1))%Q);
      [exact Hi | apply pow2_le; lia].
  - destruct (round64_on_grid x (-53) Px) as [z Ez]; [unfold quantum_exponent; lia |].
    rewrite Ez in *.
    assert (E1 : ((1 # 2) + 2 ^ (-53) == inject_Z (2 ^ 52 + 1) * 2 ^ (-53))%Q)
      by (vm_compute; reflexivity).
    assert (E2 : (1 # 2 == inject_Z (2 ^ 52) * 2 ^ (-53))%Q) by (vm_compute; reflexivity).
    rewrite E1. rewrite E2 in H.
    apply Qmult_lt_r in H; [| apply pow2_pos]. rewrite <- Zlt_Qlt in H.
    apply Qmult_le_r; [apply pow2_pos |]. rewrite <- Zle_Qle. lia.
Qed.

Lemma scaled_error (z t q : Q) :
  (0 < q)%Q -> (z - t <= 1 # 2)%Q -> (t - z <= 1 # 2)%Q ->
  (Qabs (z * q - t * q) <= (1 # 2) * q)%Q.
Proof.
  intros Pq E1 E2. apply Qabs_Qle_condition. split.
  - setoid_replace (- ((1 # 2) * q))%Q with ((- (1 # 2)) * q)%Q by ring.
    setoid_replace (z * q - t * q)%Q with ((z - t) * q)%Q by ring.
    apply Qmult_le_r; [exact Pq | lra].
  - setoid_replace (z * q - t * q)%Q with ((z - t) * q)%Q by ring.
    apply Qmult_le_r; [exact Pq | exact E1].
Qed.

(** Rounding moves a number by at most half a quantum. *)
Lemma round64_half_quantum (x : Q) :
  (0 < x)%Q ->
  (Qabs (round64 x - x) <= 2 ^ (quantum_exponent x - 1))%Q.
Proof.
  intros Hx. rewrite (round64_pos x Hx).
  set (k := quantum_exponent x).
  assert (Pq : (0 < 2 ^ k)%Q) by apply pow2_pos.
  destruct (round_half_even_error (x / 2 ^ k)) as [E1 E2].
  assert (Eh : (2 ^ (k - 1) == (1 # 2) * 2 ^ k)%Q).
  { replace (k - 1) with (-1 + k) by lia. rewrite pow2_plus. reflexivity. }
  assert (Ex : (x == x / 2 ^ k * 2 ^ k)%Q).
  { field. intros C. rewrite C in Pq. discriminate Pq. }
  rewrite Eh. rewrite Ex at 2. apply scaled_error; assumption.
Qed.

(** The relative error of a rounding is at most [2 ^ -53], apart from an
    absolute error of half the smallest subnormal number. *)
Lemma round64_error (x : Q) :
  (0 <= x)%Q -> (Qabs (round64 x - x) <= x * 2 ^ (-53) + 2 ^ (-1075))%Q.
Proof.
  intros Hx.
  destruct (Qlt_le_dec 0 x) as [Px | Zx].
  2:{ assert (E : (x == 0)%Q) by (apply Qle_antisym; assumption).
      rewrite (round64_zero x E), E. vm_compute. discriminate. }
  apply Qle_trans with (y := (2 ^ (quantum_exponent x - 1))%Q);
    [apply round64_half_quantum; exact Px |].
  destruct (ilog2_spec x Px) as [Lo _].
  assert (P1 : (0 <= x * 2 ^ (-53))%Q).
  { apply Qmult_le_0_compat; [exact Hx | apply Qlt_le_weak, pow2_pos]. }
  assert (P2 : (0 < 2 ^ (-1075))%Q) by apply pow2_pos.
  unfold quantum_exponent.
  destruct (Z.max_spec (ilog2 x - 52) (-1074)) as [[_ ->] | [_ ->]].
  - change (-1074 - 1) with (-1075). lra.
  - replace (ilog2 x - 52 - 1) with (ilog2 x + -53) by lia. rewrite pow2_plus.
    apply Qle_trans with (y := (x * 2 ^ (-53))%Q); [| lra].
    apply Qmult_le_r; [apply pow2_pos | exact Lo].
Qed.

(** ** The sum and the mean *)

Lemma round64_Z (j : Z) : 0 <= j <= 2 ^ 53 -> (round64 (inject_Z j) == inject_Z j)%Q.
Proof.
  intros Hj.
  assert (E : (inject_Z j == inject_Z j * 2 ^ 0)%Q) by (change (2 ^ 0)%Q with 1%Q; ring).
  pose proof (round64_exact j 0 Hj ltac:(lia)) as X.
  rewrite <- (round64_Qeq _ _ E) in X. rewrite X. symmetry. exact E.
Qed.

(** A sum of [k] scores of at most 1 is at most [k], and at most [2 ^ 53]:
    from there on adding 1 changes nothing. *)
Lemma f64_add_bounds (acc s : Q) (k : Z) :
  0 <= k ->
  (0 <= acc)%Q -> (acc <= inject_Z (Z.min k (2 ^ 53)))%Q ->
  (0 <= s)%Q -> (s <= 1)%Q ->
  (0 <= f64_add acc s)%Q /\ (f64_add acc s <= inject_Z (Z.min (k + 1) (2 ^ 53)))%Q.
Proof.
  intros Hk A0 A1 S0 S1. unfold f64_add. split.
  - apply round64_nonneg. lra.
  - apply Qle_trans with (y := round64 (inject_Z (Z.min k (2 ^ 53) + 1))).
    + apply round64_mono; [lra |]. rewrite inject_Z_plus. change (inject_Z 1) with 1%Q. lra.
    + destruct (Z_lt_le_dec k (2 ^ 53)) as [L | G].
      * rewrite (Z.min_l k), (Z.min_l (k + 1)) by lia.
        rewrite round64_Z by lia. apply Qle_refl.
      * rewrite (Z.min_r k), (Z.min_r (k + 1)) by lia. vm_compute. discriminate.
Qed.

Lemma fold_f64_add_bounds (l : list Q) :
  (forall s, In s l -> 0 <= s /\ s <= 1)%Q ->
  forall (acc : Q) (k : Z),
    0 <= k -> (0 <= acc)%Q -> (acc <= inject_Z (Z.min k (2 ^ 53)))%Q ->
    (0 <= fold_left f64_add l acc)%Q /\
    (fold_left f64_add l acc <= inject_Z (Z.min (k + Z.of_nat (List.length l)) (2 ^ 53)))%Q.
Proof.
  induction l as [| s l IH]; intros H acc k Hk A0 A1.
  - simpl. rewrite Z.add_0_r. split; assumption.
  - assert (Hs : (0 <= s /\ s <= 1)%Q) by (apply H; left; reflexivity).
    destruct Hs as [S0 S1].
    destruct (f64_add_bounds acc s k Hk A0 A1 S0 S1) as [B0 B1].
    change (fold_left f64_add (s :: l) acc) with (fold_left f64_add l (f64_add acc s)).
    change (List.length (s :: l)) with (S (List.length l)).
    replace (k + Z.of_nat (S (List.length l))) with (k + 1 + Z.of_nat (List.length l)) by lia.
    apply IH; [intros t Ht; apply H; right; exact Ht | lia | exact B0 | exact B1].
Qed.

Lemma f64_sum_bounds (l : list Q) :
  (forall s, In s l -> 0 <= s /\ s <= 1)%Q ->
  (0 <= f64_sum l)%Q /\
  (f64_sum l <= inject_Z (Z.min (Z.of_nat (List.length l)) (2 ^ 53)))%Q.
Proof.
  intros H. unfold f64_sum.
  apply (fold_f64_add_bounds l H 0%Q 0); [lia | apply Qle_refl | apply Qle_refl].
Qed.

Lemma f64_of_nat_bounds (n : nat) :
  (inject_Z (Z.min (Z.of_nat n) (2 ^ 53)) <= f64_of_nat n)%Q.
Proof.
  unfold f64_of_nat.
  destruct (Z_lt_le_dec (Z.of_nat n) (2 ^ 53)) as [L | G].
  - rewrite Z.min_l by lia. rewrite round64_Z by lia. apply Qle_refl.
  - rewrite Z.min_r by lia.
    apply Qle_trans with (y := round64 (inject_Z (2 ^ 53))); [vm_compute; discriminate |].
    apply round64_mono; [discriminate |]. rewrite <- Zle_Qle. exact G.
Qed.

(** The quotient of the mean, before its rounding. *)
Lemma mean_quotient_bounds (l : list Q) :
  l <> [] ->
  (forall s, In s l -> 0 <= s /\ s <= 1)%Q ->
  (0 <= f64_sum l / f64_of_nat (List.length l) /\
   f64_sum l / f64_of_nat (List.length l) <= 1)%Q.
Proof.
  intros Hne H. destruct (f64_sum_bounds l H) as [S0 S1].
  pose proof (f64_of_nat_bounds (List.length l)) as N.
  set (c := inject_Z (Z.min (Z.of_nat (List.length l)) (2 ^ 53))) in *.
  assert (C : (1 <= c)%Q).
  { unfold c. change 1%Q with (inject_Z 1). rewrite <- Zle_Qle.
    destruct l; [congruence |]. simpl List.length. lia. }
  assert (P : (0 < f64_of_nat (List.length l))%Q) by lra.
  split.
  - apply Qle_shift_div_l; [exact P | lra].
  - apply Qle_shift_div_r; [exact P | lra].
Qed.

(** The mean of scores in [0, 1] is in [0, 1]. *)
Lemma np_mean_bounds (l : list Q) :
  l <> [] ->
  (forall s, In s l -> 0 <= s /\ s <= 1)%Q ->
  (0 <= np_mean l /\ np_mean l <= 1)%Q.
Proof.
  intros Hne H. destruct (mean_quotient_bounds l Hne H) as [Q0 Q1].
  unfold np_mean, f64_div. split.
  - apply round64_nonneg. exact Q0.
  - apply Qle_trans with (y := round64 1); [| vm_compute; discriminate].
    apply round64_mono; assumption.
Qed.

(** A mean above 1/2 is above it by one unit of the last place at least. *)
Lemma np_mean_above_half (l : list Q) :
  l <> [] ->
  (forall s, In s l -> 0 <= s /\ s <= 1)%Q ->
  (1 # 2 < np_mean l)%Q -> ((1 # 2) + 2 ^ (-53) <= np_mean l)%Q.
Proof.
  intros Hne H. destruct (mean_quotient_bounds l Hne H) as [Q0 _].
  unfold np_mean, f64_div. apply round64_above_half. exact Q0.
Qed.

(** *** Distance from the arithmetic mean *)

Lemma Qabs_le_split (x e : Q) : (- e <= x)%Q -> (x <= e)%Q -> (Qabs x <= e)%Q.
Proof. intros H1 H2. apply Qabs_Qle_condition. split; assumption. Qed.

Lemma Qabs_le_inv (x e : Q) : (Qabs x <= e)%Q -> (- e <= x)%Q /\ (x <= e)%Q.
Proof. intros H. apply Qabs_Qle_condition. exact H. Qed.

(** One rounding of a number of at most [X], where [1 <= X]. *)
Lemma round64_error_upto (x X u : Q) :
  (0 <= x)%Q -> (x <= X)%Q -> (1 <= X)%Q -> (u == 2 ^ (-53) + 2 ^ (-1075))%Q ->
  (Qabs (round64 x - x) <= X * u)%Q.
Proof.
  intros H0 H1 HX Eu.
  apply Qle_trans with (y := (x * 2 ^ (-53) + 2 ^ (-1075))%Q); [apply round64_error; exact H0 |].
  rewrite Eu.
  assert (P1 : (0 < 2 ^ (-53))%Q) by apply pow2_pos.
  assert (P2 : (0 < 2 ^ (-1075))%Q) by apply pow2_pos.
  set (a := (2 ^ (-53))%Q) in *. set (b := (2 ^ (-1075))%Q) in *.
  assert (M1 : (x * a <= X * a)%Q) by (apply Qmult_le_r; assumption).
  assert (M2 : (1 * b <= X * b)%Q) by (apply Qmult_le_r; assumption).
  rewrite Qmult_plus_distr_r. lra.
Qed.

Lemma fold_f64_add_error (u : Q) (l : list Q) :
  (u == 2 ^ (-53) + 2 ^ (-1075))%Q ->
  (forall s, In s l -> 0 <= s /\ s <= 1)%Q ->
  forall (acc : Q) (k : Z),
    0 <= k -> k + Z.of_nat (List.length l) <= 2 ^ 53 ->
    (0 <= acc)%Q -> (acc <= inject_Z k)%Q ->
    (Qabs (fold_left f64_add l acc - (acc + Qsum l))
     <= inject_Z (Z.of_nat (List.length l)) * (inject_Z k + inject_Z (Z.of_nat (List.length l))) * u)%Q.
Proof.
  intros Eu. induction l as [| s l IH]; intros H acc k Hk Hcap A0 A1.
  - change (fold_left f64_add [] acc) with acc. change (Qsum []) with 0%Q.
    change (inject_Z (Z.of_nat (List.length (@nil Q)))) with 0%Q.
    apply Qabs_le_split; lra.
  - assert (Hs : (0 <= s /\ s <= 1)%Q) by (apply H; left; reflexivity).
    destruct Hs as [S0 S1].
    change (List.length (s :: l)) with (S (List.length l)) in *.
    rewrite Nat2Z.inj_succ in *. unfold Z.succ in *.
    assert (A1' : (acc <= inject_Z (Z.min k (2 ^ 53)))%Q) by (rewrite Z.min_l by lia; exact A1).
    destruct (f64_add_bounds acc s k Hk A0 A1' S0 S1) as [B0 B1].
    rewrite Z.min_l in B1 by lia.
    change (fold_left f64_add (s :: l) acc) with (fold_left f64_add l (f64_add acc s)).
    assert (IHl := IH (fun t Ht => H t (or_intror Ht)) (f64_add acc s) (k + 1)
                      ltac:(lia) ltac:(lia) B0 B1).
    assert (Hstep : (Qabs (f64_add acc s - (acc + s)) <= (inject_Z k + 1) * u)%Q).
    { unfold f64_add. apply round64_error_upto; [lra | lra | | exact Eu].
      assert (K0 : (0 <= inject_Z k)%Q) by (change 0%Q with (inject_Z 0); rewrite <- Zle_Qle; exact Hk).
      lra. }
    apply Qabs_le_inv in IHl. apply Qabs_le_inv in Hstep.
    destruct IHl as [I1 I2]. destruct Hstep as [T1 T2].
    rewrite !inject_Z_plus in *. change (inject_Z 1) with 1%Q in *.
    change (Qsum (s :: l)) with (s + Qsum l)%Q.
    assert (N0 : (0 <= inject_Z (Z.of_nat (List.length l)))%Q).
    { change 0%Q with (inject_Z 0). rewrite <- Zle_Qle. lia. }
    assert (U0 : (0 <= u)%Q).
    { rewrite Eu. apply Qlt_le_weak.
      apply Qlt_trans with (y := (2 ^ (-53))%Q); [apply pow2_pos |].
      rewrite <- (Qplus_0_r (2 ^ (-53))) at 1. apply Qplus_lt_r. apply pow2_pos. }
    assert (NU : (0 <= inject_Z (Z.of_nat (List.length l)) * u)%Q)
      by (apply Qmult_le_0_compat; assumption).
    set (N := inject_Z (Z.of_nat (List.length l))) in *.
    set (K := inject_Z k) in *.
    set (F := fold_left f64_add l (f64_add acc s)) in *.
    set (a' := f64_add acc s) in *. set (S := Qsum l) in *.
    clearbody N K F a' S. clear - I1 I2 T1 T2 NU.
    apply Qabs_le_split; nra.
Qed.

(** The binary64 mean of at most [2 ^ 53] scores in [0, 1] differs from
    their arithmetic mean by at most [(n + 1) * 2 ^ -52]. *)
Lemma np_mean_error (l : list Q) :
  l <> [] ->
  (forall s, In s l -> 0 <= s /\ s <= 1)%Q ->
  Z.of_nat (List.length l) <= 2 ^ 53 ->
  (Qabs (np_mean l - Qsum l / inject_Z (Z.of_nat (List.length l)))
   <= (inject_Z (Z.of_nat (List.length l)) + 1) * 2 ^ (-52))%Q.
Proof.
  intros Hne H Hn.
  set (u := (2 ^ (-53) + 2 ^ (-1075))%Q).
  assert (Eu : (u == 2 ^ (-53) + 2 ^ (-1075))%Q) by reflexivity.
  assert (Uu : (0 <= u)%Q) by (vm_compute; discriminate).
  assert (Ul : (u <= 2 ^ (-52))%Q) by (vm_compute; discriminate).
  destruct (f64_sum_bounds l H) as [S0 S1]. rewrite Z.min_l in S1 by lia.
  pose proof (fold_f64_add_error u l Eu H 0%Q 0 ltac:(lia) ltac:(lia)
                (Qle_refl 0) (Qle_refl 0)) as Es.
  fold (f64_sum l) in Es. change (inject_Z 0) with 0%Q in Es.
  assert (En : (f64_of_nat (List.length l) == inject_Z (Z.of_nat (List.length l)))%Q).
  { unfold f64_of_nat. apply round64_Z. lia. }
  assert (N1 : (1 <= inject_Z (Z.of_nat (List.length l)))%Q).
  { change 1%Q with (inject_Z 1). rewrite <- Zle_Qle.
    destruct l; [congruence |]. simpl List.length. lia. }
  set (N := inject_Z (Z.of_nat (List.length l))) in *.
  assert (PN : (0 < N)%Q) by lra.
  assert (Em : np_mean l = round64 (f64_sum l / N)).
  { unfold np_mean, f64_div. apply round64_Qeq. rewrite En. reflexivity. }
  rewrite Em.
  assert (Q0 : (0 <= f64_sum l / N)%Q) by (apply Qle_shift_div_l; [exact PN | lra]).
  assert (Q1 : (f64_sum l / N <= 1)%Q) by (apply Qle_shift_div_r; [exact PN | lra]).
  pose proof (round64_error_upto (f64_sum l / N) 1 u Q0 Q1 (Qle_refl 1) Eu) as Er.
  apply Qabs_le_inv in Es. destruct Es as [Es1 Es2].
  apply Qabs_le_inv in Er. destruct Er as [Er1 Er2].
  assert (Ed : (f64_sum l / N - Qsum l / N == (f64_sum l - (0 + Qsum l)) / N)%Q).
  { field. intros C. rewrite C in PN. discriminate PN. }
  assert (D1 : (- (N * u) <= f64_sum l / N - Qsum l / N)%Q).
  { rewrite Ed. apply Qle_shift_div_l; [exact PN |].
    setoid_replace (- (N * u) * N)%Q with (- (N * (0 + N) * u))%Q by ring. exact Es1. }
  assert (D2 : (f64_sum l / N - Qsum l / N <= N * u)%Q).
  { rewrite Ed. apply Qle_shift_div_r; [exact PN |].
    setoid_replace (N * u * N)%Q with (N * (0 + N) * u)%Q by ring. exact Es2. }
  assert (M : ((N + 1) * u <= (N + 1) * 2 ^ (-52))%Q).
  { apply Qmult_le_l; [lra | exact Ul]. }
  set (p := (2 ^ (-52))%Q) in *.
  set (m := round64 (f64_sum l / N)) in *. set (q := (f64_sum l / N)%Q) in *.
  set (a := (Qsum l / N)%Q) in *.
  clearbody p m q a u N. clear - Er1 Er2 D1 D2 M.
  apply Qabs_le_split; nra.
Qed.

(** *** Scores on a common binary grid *)

Lemma Qsum_grid_nonneg (k : Z) (l : list Q) :
  (forall s, In s l -> exists j : Z, 0 <= j /\ (s == inject_Z j * 2 ^ k)%Q) ->
  (0 <= Qsum l)%Q.
Proof.
  induction l as [| s l IH]; intros H.
  - apply Qle_refl.
  - change (Qsum (s :: l)) with (s + Qsum l)%Q.
    destruct (H s (or_introl eq_refl)) as (j & Hj & Es).
    assert (S0 : (0 <= s)%Q).
    { rewrite Es. apply Qmult_le_0_compat; [| apply Qlt_le_weak, pow2_pos].
      change 0%Q with (inject_Z 0). rewrite <- Zle_Qle. exact Hj. }
    assert (L0 : (0 <= Qsum l)%Q) by (apply IH; intros t Ht; apply H; right; exact Ht).
    lra.
Qed.

(** No addition rounds when the scores are multiples of one power of two
    and their sum has at most 53 bits on that grid. *)
Lemma fold_f64_add_exact (k : Z) (l : list Q) :
  -1074 <= k ->
  (forall s, In s l -> exists j : Z, 0 <= j /\ (s == inject_Z j * 2 ^ k)%Q) ->
  forall (acc : Q) (j0 : Z),
    0 <= j0 -> (acc == inject_Z j0 * 2 ^ k)%Q ->
    (acc + Qsum l <= 2 ^ (k + 53))%Q ->
    (fold_left f64_add l acc == acc + Qsum l)%Q.
Proof.
  intros Hk. induction l as [| s l IH]; intros H acc j0 Hj0 Ea Hcap.
  - change (fold_left f64_add [] acc) with acc. change (Qsum []) with 0%Q. ring.
  - change (fold_left f64_add (s :: l) acc) with (fold_left f64_add l (f64_add acc s)).
    change (Qsum (s :: l)) with (s + Qsum l)%Q in *.
    destruct (H s (or_introl eq_refl)) as (j & Hj & Es).
    assert (L0 : (0 <= Qsum l)%Q).
    { apply (Qsum_grid_nonneg k). intros t Ht. apply H. right. exact Ht. }
    assert (E : (acc + s == inject_Z (j0 + j) * 2 ^ k)%Q).
    { rewrite Ea, Es, inject_Z_plus. ring. }
    assert (B : j0 + j <= 2 ^ 53).
    { rewrite Zle_Qle. apply (Qmult_le_r _ _ (2 ^ k)%Q); [apply pow2_pos |].
      rewrite <- E. rewrite <- (pow2_inject 53) by lia. rewrite <- pow2_plus.
      replace (53 + k) with (k + 53) by lia. lra. }
    assert (X : (f64_add acc s == inject_Z (j0 + j) * 2 ^ k)%Q).
    { unfold f64_add. rewrite (round64_Qeq _ _ E). apply round64_exact; lia. }
    rewrite (IH (fun t Ht => H t (or_intror Ht)) (f64_add acc s) (j0 + j)
                ltac:(lia) X).
    + rewrite X, <- E. ring.
    + rewrite X, <- E. lra.
Qed.

Lemma f64_sum_exact (k : Z) (l : list Q) :
  -1074 <= k ->
  (forall s, In s l -> exists j : Z, 0 <= j /\ (s == inject_Z j * 2 ^ k)%Q) ->
  (Qsum l <= 2 ^ (k + 53))%Q ->
  (f64_sum l == Qsum l)%Q.
Proof.
  intros Hk H Hcap. unfold f64_sum.
  rewrite (fold_f64_add_exact k l Hk H 0%Q 0); [ring | lia | ring | lra].
Qed.

(** ** The decision *)

(** The printed number depends on the value only, not on the fraction that
    represents it. *)
Lemma format_2f_Qeq (x y : Q) : (x == y)%Q -> format_2f x = format_2f y.
Proof.
  intros H. unfold format_2f.
  assert (E : round_half_even (Qabs x * 100) = round_half_even (Qabs y * 100)).
  { apply round_half_even_Qeq. rewrite H. reflexivity. }
  rewrite E.
  destruct (Qlt_le_dec x 0) as [Hx | Hx], (Qlt_le_dec y 0) as [Hy | Hy];
    try reflexivity; rewrite H in Hx; lra.
Qed.

Lemma render_Qeq (l : Label) (c c' : Q) :
  (c == c')%Q -> render (Verdict l c) = render (Verdict l c').
Proof.
  intros H. destruct l; simpl; rewrite (format_2f_Qeq _ _ H); reflexivity.
Qed.

Lemma aggregate_fake (scores : list Q) :
  scores <> [] -> (1 # 2 < np_mean scores)%Q ->
  aggregate scores = Verdict FAKE (f64_mul (np_mean scores) 100).
Proof.
  intros Hne Hm. destruct scores as [| s rest]; [congruence |].
  unfold aggregate. destruct (Qlt_le_dec (1 # 2) (np_mean (s :: rest))) as [Hlt | Hle];
    [reflexivity | exfalso; exact (Qlt_not_le _ _ Hm Hle)].
Qed.

Lemma aggregate_real (scores : list Q) :
  scores <> [] -> (np_mean scores <= 1 # 2)%Q ->
  aggregate scores = Verdict REAL (f64_sub 100 (f64_mul (np_mean scores) 100)).
Proof.
  intros Hne Hm. destruct scores as [| s rest]; [congruence |].
  unfold aggregate. destruct (Qlt_le_dec (1 # 2) (np_mean (s :: rest))) as [Hlt | Hle];
    [exfalso; exact (Qlt_not_le _ _ Hlt Hm) | reflexivity].
Qed.

(** The two roundings of the confidence stay within [2 ^ -46] and
    [2 ^ -45] of the exact products, for a mean in [0, 1]. *)
Lemma confidence_error (m : Q) :
  (0 <= m)%Q -> (m <= 1)%Q ->
  (0 <= f64_mul m 100 /\ f64_mul m 100 <= 100)%Q /\
  (Qabs (f64_mul m 100 - m * 100) <= 2 ^ (-46))%Q /\
  (Qabs (f64_sub 100 (f64_mul m 100) - (1 - m) * 100) <= 2 ^ (-45))%Q.
Proof.
  intros M0 M1.
  set (u := (2 ^ (-53) + 2 ^ (-1075))%Q).
  assert (Eu : (u == 2 ^ (-53) + 2 ^ (-1075))%Q) by reflexivity.
  assert (U1 : (100 * u <= 2 ^ (-46))%Q) by (vm_compute; discriminate).
  assert (U2 : (2 ^ (-46) + 100 * u <= 2 ^ (-45))%Q) by (vm_compute; discriminate).
  assert (C0 : (0 <= f64_mul m 100)%Q) by (apply round64_nonneg; lra).
  assert (C1 : (f64_mul m 100 <= 100)%Q).
  { apply Qle_trans with (y := round64 100); [| vm_compute; discriminate].
    apply round64_mono; lra. }
  assert (E1 : (Qabs (f64_mul m 100 - m * 100) <= 100 * u)%Q).
  { apply round64_error_upto; [lra | lra | discriminate | exact Eu]. }
  assert (E2 : (Qabs (f64_sub 100 (f64_mul m 100) - (100 - f64_mul m 100)) <= 100 * u)%Q).
  { apply round64_error_upto; [lra | lra | discriminate | exact Eu]. }
  apply Qabs_le_inv in E1. apply Qabs_le_inv in E2.
  set (p := (2 ^ (-46))%Q) in *. set (p' := (2 ^ (-45))%Q) in *.
  set (c := f64_mul m 100) in *. set (c' := f64_sub 100 c) in *.
  clearbody p p' c c' u.
  split; [split; assumption |]. split; apply Qabs_le_split; lra.
Qed.

(** Scenarios A, B and E of the specification. *)
Example scenario_A :
  decision_string [9 # 10; 8 # 10; 95 # 100]%Q = "Video is 88.33% likely to be a FAKE."%string.
Proof. vm_compute. reflexivity. Qed.

Example scenario_B :
  decision_string [1 # 10; 2 # 10; 5 # 100]%Q = "Video is 88.33% likely to be REAL."%string.
Proof. vm_compute. reflexivity. Qed.

Example scenario_E :
  aggregate [1 # 2]%Q = Verdict REAL 50 /\
  decision_string [1 # 2]%Q = "Video is 50.00% likely to be REAL."%string.
Proof. split; vm_compute; reflexivity. Qed.

(** The arithmetic mean of the scores 1 and [2 ^ -60] is above 1/2, but
    their binary64 sum is 1 and the verdict is REAL; and where the
    arithmetic mean times 100 prints as 53.13, the function prints 53.12. *)
Lemma arithmetic_mean_misjudged :
  ((1 # 2 < Qsum [1; 2 ^ (-60)] / 2)%Q /\
   aggregate [1; 2 ^ (-60)]%Q = Verdict REAL 50 /\
   decision_string [1; 2 ^ (-60)]%Q = "Video is 50.00% likely to be REAL."%string) /\
  (format_2f (Qsum [3 # 4; 3 # 4; 5 # 8; 2 ^ (-60)] / 4 * 100)%Q = "53.13"%string /\
   decision_string [3 # 4; 3 # 4; 5 # 8; 2 ^ (-60)]%Q
     = "Video is 53.12% likely to be a FAKE."%string).
Proof. repeat split; vm_compute; reflexivity. Qed.

(** C1 (amended).  For a non-empty list of scores let [m] be the mean as
    [np.mean] computes it in binary64 and [c] the rounded product
    [m * 100].  If [m > 0.5] the result is the FAKE verdict with confidence
    [c]; if [m <= 0.5] it is the REAL verdict with the rounded difference
    [100 - c]; a mean of exactly 0.5 gives REAL, printed with confidence
    50.00.  For at most [2 ^ 53] scores in [0, 1], [m] is within
    [(n + 1) * 2 ^ -52] of the arithmetic mean, and the two confidences are
    within [2 ^ -46] of [m * 100] and [2 ^ -45] of [(1 - m) * 100].  When the
    scores are multiples of one power of two and their sum has at most 53
    bits on that grid, [m] is the arithmetic mean rounded once. *)
Theorem threshold_and_confidence (scores : list Q) (Hne : scores <> []) :
  let n := inject_Z (Z.of_nat (List.length scores)) in
  let m := np_mean scores in
  let c := f64_mul m 100 in
  ((1 # 2 < m)%Q ->
     aggregate scores = Verdict FAKE c /\
     decision_string scores
       = ("Video is " ++ format_2f c ++ "% likely to be a FAKE.")%string) /\
  ((m <= 1 # 2)%Q ->
     aggregate scores = Verdict REAL (f64_sub 100 c) /\
     decision_string scores
       = ("Video is " ++ format_2f (f64_sub 100 c) ++ "% likely to be REAL.")%string) /\
  ((m == 1 # 2)%Q ->
     aggregate scores = Verdict REAL 50 /\
     decision_string scores = "Video is 50.00% likely to be REAL."%string) /\
  ((forall s, In s scores -> 0 <= s /\ s <= 1)%Q ->
   Z.of_nat (List.length scores) <= 2 ^ 53 ->
     (Qabs (m - Qsum scores / n) <= (n + 1) * 2 ^ (-52))%Q /\
     (Qabs (c - m * 100) <= 2 ^ (-46))%Q /\
     (Qabs (f64_sub 100 c - (1 - m) * 100) <= 2 ^ (-45))%Q) /\
  (forall k : Z,
     -1074 <= k ->
     (forall s, In s scores -> exists j : Z, 0 <= j /\ (s == inject_Z j * 2 ^ k)%Q) ->
     (Qsum scores <= 2 ^ (k + 53))%Q ->
     Z.of_nat (List.length scores) <= 2 ^ 53 ->
     m = round64 (Qsum scores / n)).
Proof.
  intros n m c. split; [| split; [| split; [| split]]].
  - intros Hm. unfold decision_string. rewrite (aggregate_fake scores Hne Hm).
    split; reflexivity.
  - intros Hm. unfold decision_string. rewrite (aggregate_real scores Hne Hm).
    split; reflexivity.
  - intros Hm. unfold decision_string.
    rewrite (aggregate_real scores Hne); [| fold m; rewrite Hm; apply Qle_refl].
    assert (E : f64_sub 100 (f64_mul (np_mean scores) 100) = 50%Q).
    { fold m. unfold f64_sub, f64_mul.
      assert (E1 : round64 (m * 100) = round64 50).
      { apply round64_Qeq. rewrite Hm. reflexivity. }
      rewrite E1. vm_compute. reflexivity. }
    rewrite E. split; reflexivity.
  - intros Hrange Hn.
    destruct (np_mean_bounds scores Hne Hrange) as [M0 M1].
    destruct (confidence_error m M0 M1) as (_ & E1 & E2).
    split; [apply np_mean_error; assumption |]. split; assumption.
  - intros k Hk Hgrid Hcap Hn. unfold m, np_mean, f64_div.
    apply round64_Qeq.
    rewrite (f64_sum_exact k scores Hk Hgrid Hcap).
    unfold f64_of_nat. rewrite round64_Z by lia. reflexivity.
Qed.

Lemma threshold_and_confidence_witness :
  aggregate [1 # 4; 3 # 4]%Q = Verdict REAL 50 /\
  decision_string [1 # 4; 3 # 4]%Q = "Video is 50.00% likely to be REAL."%string.
Proof.
  assert (Hne : [1 # 4; 3 # 4]%Q <> []) by discriminate.
  destruct (threshold_and_confidence [1 # 4; 3 # 4]%Q Hne) as (_ & _ & H & _).
  apply H. vm_compute. reflexivity.
Defined.

(** Addition of fractions is commutative and associative on the nose, so
    the exact sum does not depend on the order of its terms. *)
Lemma Qplus_swap (x y z : Q) : (x + (y + z))%Q = (y + (x + z))%Q.
Proof.
  destruct x as [nx dx], y as [ny dy], z as [nz dz]. unfold Qplus; simpl.
  f_equal.
  - rewrite !Pos2Z.inj_mul. ring.
  - rewrite !Pos.mul_assoc, (Pos.mul_comm dx dy). reflexivity.
Qed.

Lemma Qsum_Permutation (l l' : list Q) : Permutation l l' -> Qsum l = Qsum l'.
Proof.
  induction 1 as [| x l l' _ IH | x y l | l l' l'' _ IH1 _ IH2]; simpl.
  - reflexivity.
  - rewrite IH. reflexivity.
  - apply Qplus_swap.
  - congruence.
Qed.

(** With no rounding in the sum, the mean does not depend on the order. *)
Lemma np_mean_Permutation_exact (k : Z) (l l' : list Q) :
  -1074 <= k ->
  (forall s, In s l -> exists j : Z, 0 <= j /\ (s == inject_Z j * 2 ^ k)%Q) ->
  (Qsum l <= 2 ^ (k + 53))%Q ->
  Permutation l l' -> np_mean l = np_mean l'.
Proof.
  intros Hk Hgrid Hcap P.
  assert (Hgrid' : forall s, In s l' -> exists j : Z, 0 <= j /\ (s == inject_Z j * 2 ^ k)%Q).
  { intros s Hs. apply Hgrid. apply (Permutation_in s (Permutation_sym P)). exact Hs. }
  assert (Hcap' : (Qsum l' <= 2 ^ (k + 53))%Q) by (rewrite <- (Qsum_Permutation l l' P); exact Hcap).
  unfold np_mean, f64_div. apply round64_Qeq.
  rewrite (f64_sum_exact k l Hk Hgrid Hcap), (f64_sum_exact k l' Hk Hgrid' Hcap').
  rewrite (Qsum_Permutation l l' P), (Permutation_length P). reflexivity.
Qed.

(** The same four scores in two orders: the sum of the first order is 2
    and the verdict REAL, the sum of the second is above 2 and the verdict
    FAKE. *)
Lemma score_order_changes_verdict :
  Permutation [1; 1; 2 ^ (-52); 2 ^ (-52)]%Q [2 ^ (-52); 2 ^ (-52); 1; 1]%Q /\
  decision_string [1; 1; 2 ^ (-52); 2 ^ (-52)]%Q
    = "Video is 50.00% likely to be REAL."%string /\
  decision_string [2 ^ (-52); 2 ^ (-52); 1; 1]%Q
    = "Video is 50.00% likely to be a FAKE."%string.
Proof.
  split; [| split; vm_compute; reflexivity].
  exact (Permutation_app_comm [1; 1]%Q [2 ^ (-52); 2 ^ (-52)]%Q).
Qed.

(** C8 (amended).  Two lists with the same scores in a different order
    give the same label, the same confidence and the same decision string
    when no addition of the sum rounds: the scores are multiples of one
    power of two and their sum has at most 53 bits on that grid.  For at
    most [2 ^ 53] scores in [0, 1] in general, the two orders give the same
    label when the arithmetic mean is farther than [(n + 1) * 2 ^ -52] from
    1/2. *)
Theorem decision_order_independent (scores scores' : list Q) :
  Permutation scores scores' ->
  (forall k : Z,
     -1074 <= k ->
     (forall s, In s scores -> exists j : Z, 0 <= j /\ (s == inject_Z j * 2 ^ k)%Q) ->
     (Qsum scores <= 2 ^ (k + 53))%Q ->
     aggregate scores = aggregate scores' /\
     same_result (aggregate scores) (aggregate scores') /\
     decision_string scores = decision_string scores') /\
  (scores <> [] ->
   (forall s, In s scores -> 0 <= s /\ s <= 1)%Q ->
   Z.of_nat (List.length scores) <= 2 ^ 53 ->
   let n := inject_Z (Z.of_nat (List.length scores)) in
   ((1 # 2) + (n + 1) * 2 ^ (-52) < Qsum scores / n ->
      exists c c', aggregate scores = Verdict FAKE c /\ aggregate scores' = Verdict FAKE c')%Q /\
   (Qsum scores / n < (1 # 2) - (n + 1) * 2 ^ (-52) ->
      exists c c', aggregate scores = Verdict REAL c /\ aggregate scores' = Verdict REAL c')%Q).
Proof.
  intros P. split.
  - intros k Hk Hgrid Hcap.
    assert (E : aggregate scores = aggregate scores').
    { pose proof (np_mean_Permutation_exact k scores scores' Hk Hgrid Hcap P) as Em.
      destruct scores as [| a l], scores' as [| a' l'].
      - reflexivity.
      - apply Permutation_nil in P. discriminate.
      - apply Permutation_sym, Permutation_nil in P. discriminate.
      - unfold aggregate. rewrite Em. reflexivity. }
    split; [exact E |]. split.
    + rewrite E. destruct (aggregate scores') as [| l c]; simpl; [exact I |].
      split; reflexivity.
    + unfold decision_string. rewrite E. reflexivity.
  - intros Hne Hrange Hn n.
    assert (Hne' : scores' <> []).
    { intros C. subst scores'. apply Permutation_sym, Permutation_nil in P. contradiction. }
    assert (Hrange' : (forall s, In s scores' -> 0 <= s /\ s <= 1)%Q).
    { intros s Hs. apply Hrange. apply (Permutation_in s (Permutation_sym P)). exact Hs. }
    pose proof (np_mean_error scores Hne Hrange Hn) as E.
    pose proof (np_mean_error scores' Hne' Hrange') as E'.
    rewrite <- (Permutation_length P), <- (Qsum_Permutation scores scores' P) in E'.
    specialize (E' Hn). fold n in E, E'.
    apply Qabs_le_inv in E. apply Qabs_le_inv in E'.
    split; intros Hfar.
    + exists (f64_mul (np_mean scores) 100), (f64_mul (np_mean scores') 100).
      split; apply aggregate_fake; try assumption; lra.
    + exists (f64_sub 100 (f64_mul (np_mean scores) 100)),
             (f64_sub 100 (f64_mul (np_mean scores') 100)).
      split; apply aggregate_real; try assumption; lra.
Qed.

Lemma decision_order_independent_witness :
  decision_string [1 # 2; 1 # 4; 3 # 4]%Q = decision_string [1 # 4; 3 # 4; 1 # 2]%Q.
Proof.
  apply (proj1 (decision_order_independent [1 # 2; 1 # 4; 3 # 4]%Q [1 # 4; 3 # 4; 1 # 2]%Q
                  (Permutation_cons_append [1 # 4; 3 # 4]%Q (1 # 2)%Q)) (-2)).
  - lia.
  - intros s [<- | [<- | [<- | []]]];
      [exists 2 | exists 1 | exists 3]; split; try lia; vm_compute; reflexivity.
  - vm_compute. discriminate.
Defined.

(** With every score in [0, 1], a verdict carries a confidence of at least
    50: above 50 for FAKE, between 50 and 100 for REAL. *)
Lemma aggregate_confidence_bounds (scores : list Q) (label : Label) (c : Q) :
  (forall s, In s scores -> 0 <= s /\ s <= 1)%Q ->
  aggregate scores = Verdict label c ->
  (50 <= c)%Q /\
  (label = FAKE -> (50 < c /\ c <= 100)%Q) /\
  (label = REAL -> (50 <= c /\ c <= 100)%Q).
Proof.
  intros Hrange Hagg.
  destruct scores as [| a l]; [discriminate |].
  assert (Hne : a :: l <> []) by discriminate.
  assert (Hm : (0 <= np_mean (a :: l) /\ np_mean (a :: l) <= 1)%Q).
  { apply np_mean_bounds; [exact Hne | exact Hrange]. }
  destruct Hm as [M0 M1].
  destruct (confidence_error (np_mean (a :: l)) M0 M1) as ([C0 C1] & _).
  unfold aggregate in Hagg.
  destruct (Qlt_le_dec (1 # 2) (np_mean (a :: l))) as [Hlt | Hle];
    injection Hagg as Hl Hc; subst label; rewrite <- Hc.
  - pose proof (np_mean_above_half (a :: l) Hne Hrange Hlt) as Habove.
    assert (F : (50 < f64_mul (np_mean (a :: l)) 100)%Q).
    { apply Qlt_le_trans with (y := round64 (((1 # 2) + 2 ^ (-53)) * 100));
        [vm_compute; reflexivity |].
      apply round64_mono; [vm_compute; discriminate |].
      apply Qmult_le_r; [reflexivity | exact Habove]. }
    split; [apply Qlt_le_weak; exact F |].
    split; [intros _; split; assumption | discriminate].
  - assert (L : (f64_mul (np_mean (a :: l)) 100 <= 50)%Q).
    { apply Qle_trans with (y := round64 50); [| vm_compute; discriminate].
      apply round64_mono; lra. }
    assert (R0 : (50 <= f64_sub 100 (f64_mul (np_mean (a :: l)) 100))%Q).
    { apply Qle_trans with (y := round64 50); [vm_compute; discriminate |].
      apply round64_mono; lra. }
    assert (R1 : (f64_sub 100 (f64_mul (np_mean (a :: l)) 100) <= 100)%Q).
    { apply Qle_trans with (y := round64 100); [| vm_compute; discriminate].
      apply round64_mono; lra. }
    split; [exact R0 |]. split; [discriminate | intros _; split; assumption].
Qed.

Lemma render_verdict_not_sentinel (l : Label) (c : Q) :
  render (Verdict l c) <> no_face_message.
Proof. destruct l; simpl; discriminate. Qed.

(** * Facts about slices *)

Lemma slice_bound_inside (n i : Z) : 0 <= i -> i <= n -> slice_bound n i = i.
Proof.
  intros H0 Hn. unfold slice_bound.
  destruct (Z.ltb_spec i 0); [lia |].
  destruct (Z.ltb_spec i 0); [lia |].
  destruct (Z.ltb_spec n i); [lia | reflexivity].
Qed.

Lemma slice_bound_beyond (n i : Z) : 0 <= n -> n <= i -> slice_bound n i = n.
Proof.
  intros H0 Hn. unfold slice_bound.
  destruct (Z.ltb_spec i 0); [lia |].
  destruct (Z.ltb_spec i 0); [lia |].
  destruct (Z.ltb_spec n i); lia.
Qed.

Lemma slice_bound_negative (n i : Z) : i < 0 -> - n <= i -> slice_bound n i = i + n.
Proof.
  intros H0 Hn. unfold slice_bound.
  destruct (Z.ltb_spec i 0); [| lia].
  destruct (Z.ltb_spec (i + n) 0); [lia |].
  destruct (Z.ltb_spec n (i + n)); [lia | reflexivity].
Qed.

(** * Facts about the loop *)

Section PipelineFacts.

Context {Frame : Type}.
Variable shape : Frame -> Z * Z.
Variable mtcnn_detect : Frame -> outcome (option (list Box)).
Variable score_face : Face Frame -> outcome Q.

Lemma add_predictions_nil (st : PyState Frame) : add_predictions [] st = st.
Proof. destruct st. unfold add_predictions. simpl. rewrite app_nil_r. reflexivity. Qed.

Lemma add_predictions_app (l l' : list Q) (st : PyState Frame) :
  add_predictions l' (add_predictions l st) = add_predictions (l ++ l') st.
Proof. unfold add_predictions. simpl. rewrite app_assoc. reflexivity. Qed.

Lemma crop_source (frame : Frame) (y1 y2 x1 x2 : Z) :
  face_source (crop shape frame y1 y2 x1 x2) = frame.
Proof. unfold crop. destruct (shape frame). reflexivity. Qed.

(** ** One box, one frame *)

Lemma process_box_eq (frame : Frame) (box : Box) (st : PyState Frame) :
  process_box shape score_face frame box st =
  match crop_score shape score_face frame box with
  | Raise e => (Raise e, st)
  | Return None => (Return tt, st)
  | Return (Some pred) => (Return tt, add_predictions [pred] st)
  end.
Proof.
  unfold process_box, crop_score, bind, call.
  destruct (box_to_ints box) as [ints | e]; [| reflexivity].
  destruct (shape frame) as [h w].
  destruct (clamp_box h w ints) as [[[x1 y1] x2] y2].
  destruct (face_size (crop shape frame y1 y2 x1 x2) =? 0); [reflexivity |].
  destruct (score_face (crop shape frame y1 y2 x1 x2)); reflexivity.
Qed.

Lemma for_boxes_eq (frame : Frame) (boxes : list Box) (st : PyState Frame) :
  for_boxes shape score_face frame boxes st =
  (boxes_outcome shape score_face frame boxes,
   add_predictions (scores_until_failure shape score_face frame boxes) st).
Proof.
  revert st. induction boxes as [| box rest IH]; intros st.
  - simpl. rewrite add_predictions_nil. reflexivity.
  - simpl. unfold bind. rewrite process_box_eq.
    destruct (crop_score shape score_face frame box) as [[pred |] | e].
    + rewrite IH, add_predictions_app. reflexivity.
    + apply IH.
    + rewrite add_predictions_nil. reflexivity.
Qed.

Lemma try_body_eq (frame : Frame) (st : PyState Frame) :
  try_body shape mtcnn_detect score_face frame st =
  (try_outcome shape mtcnn_detect score_face frame,
   add_predictions (frame_scores shape mtcnn_detect score_face frame) st).
Proof.
  unfold try_body, try_outcome, frame_scores, bind, call.
  destruct (mtcnn_detect frame) as [[boxes |] | e].
  - apply for_boxes_eq.
  - unfold ret. rewrite add_predictions_nil. reflexivity.
  - rewrite add_predictions_nil. reflexivity.
Qed.

Lemma process_frame_eq (idx : Z) (frame : Frame) (st : PyState Frame) :
  process_frame shape mtcnn_detect score_face idx frame st =
  match try_outcome shape mtcnn_detect score_face frame with
  | Return tt =>
      (Return tt, add_predictions (frame_scores shape mtcnn_detect score_face frame) st)
  | Raise e =>
      if is_Exception e
      then warn Frame idx e
             (add_predictions (frame_scores shape mtcnn_detect score_face frame) st)
      else (Raise e, add_predictions (frame_scores shape mtcnn_detect score_face frame) st)
  end.
Proof.
  unfold process_frame, try_except_Exception. rewrite try_body_eq.
  destruct (try_outcome shape mtcnn_detect score_face frame) as [[] | e]; reflexivity.
Qed.

(** The handler catches whatever the conversions of a box raise. *)
Lemma box_to_ints_catchable (box : Box) : catchable (box_to_ints box).
Proof.
  destruct box as [x1 y1 x2 y2]. unfold box_to_ints. simpl.
  destruct x1, y1, x2, y2; simpl; exact I.
Qed.

Lemma crop_score_catchable (frame : Frame) (box : Box) :
  (forall face, face_source face = frame -> catchable (score_face face)) ->
  catchable (crop_score shape score_face frame box).
Proof.
  intros Hs. unfold crop_score.
  pose proof (box_to_ints_catchable box) as Hb.
  destruct (box_to_ints box) as [ints | e]; [| exact Hb].
  pose proof (crop_source frame) as Hsrc. unfold crop in *.
  destruct (shape frame) as [h w].
  destruct (clamp_box h w ints) as [[[x1 y1] x2] y2].
  match goal with |- context [face_size ?f =? 0] =>
    destruct (face_size f =? 0); [exact I |];
    specialize (Hs f (Hsrc y1 y2 x1 x2)); destruct (score_face f); [exact I | exact Hs]
  end.
Qed.

Lemma boxes_outcome_catchable (frame : Frame) (boxes : list Box) :
  (forall face, face_source face = frame -> catchable (score_face face)) ->
  catchable (boxes_outcome shape score_face frame boxes).
Proof.
  intros Hs. induction boxes as [| box rest IH]; simpl; [exact I |].
  pose proof (crop_score_catchable frame box Hs) as Hb.
  destruct (crop_score shape score_face frame box); [exact IH | exact Hb].
Qed.

Lemma try_outcome_catchable (frame : Frame) :
  catchable (mtcnn_detect frame) ->
  (forall face, face_source face = frame -> catchable (score_face face)) ->
  catchable (try_outcome shape mtcnn_detect score_face frame).
Proof.
  intros Hd Hs. unfold try_outcome.
  destruct (mtcnn_detect frame) as [[boxes |] | e]; [| exact I | exact Hd].
  apply boxes_outcome_catchable. exact Hs.
Qed.

(** A frame whose failures are caught leaves the loop running; only
    [predictions] and [warnings] change. *)
Lemma process_frame_recovers (idx : Z) (frame : Frame) (st : PyState Frame) :
  catchable (try_outcome shape mtcnn_detect score_face frame) ->
  exists st',
    process_frame shape mtcnn_detect score_face idx frame st = (Return tt, st') /\
    handle_open st' = handle_open st /\
    release_calls st' = release_calls st /\
    frames_read st' = frames_read st /\
    predictions st' = predictions st ++ frame_scores shape mtcnn_detect score_face frame.
Proof.
  intros Hc. rewrite process_frame_eq.
  destruct (try_outcome shape mtcnn_detect score_face frame) as [[] | [msg | msg]].
  - eexists. split; [reflexivity |]. simpl. auto.
  - eexists. split; [reflexivity |]. simpl. auto.
  - destruct Hc.
Qed.

Lemma process_frame_handle (idx : Z) (frame : Frame) (st : PyState Frame) :
  let r := process_frame shape mtcnn_detect score_face idx frame st in
  handle_open (snd r) = handle_open st /\
  release_calls (snd r) = release_calls st /\
  frames_read (snd r) = frames_read st.
Proof.
  simpl. rewrite process_frame_eq.
  destruct (try_outcome shape mtcnn_detect score_face frame) as [[] | e]; [simpl; auto |].
  destruct (is_Exception e); simpl; auto.
Qed.

(** What a failing box does to the contribution of its frame. *)
Lemma scores_until_failure_cut (frame : Frame) (pre post : list Box) (box : Box) (e : pyexn) :
  crop_score shape score_face frame box = Raise e ->
  scores_until_failure shape score_face frame (pre ++ box :: post) =
  scores_until_failure shape score_face frame pre.
Proof.
  intros Hb. induction pre as [| b pre IH]; simpl.
  - rewrite Hb. reflexivity.
  - destruct (crop_score shape score_face frame b) as [[pred |] | e'];
      [rewrite IH; reflexivity | exact IH | reflexivity].
Qed.

Lemma scores_without_failure (frame : Frame) (boxes : list Box) :
  boxes_outcome shape score_face frame boxes = Return tt ->
  scores_until_failure shape score_face frame boxes =
  scores_skipping_failed_crops shape score_face frame boxes.
Proof.
  induction boxes as [| b rest IH]; simpl; [reflexivity |].
  destruct (crop_score shape score_face frame b) as [[pred |] | e]; intros H.
  - rewrite (IH H). reflexivity.
  - exact (IH H).
  - discriminate.
Qed.

(** ** The sampling loop *)

Lemma sampling_loop_done (limit idx : Z) (pending : list (outcome Frame))
      (st : PyState Frame) :
  limit <= idx ->
  sampling_loop shape mtcnn_detect score_face limit idx pending st = (Return tt, st).
Proof.
  intros H. destruct pending; simpl;
    destruct (Z.ltb_spec idx limit); try lia; reflexivity.
Qed.

(** The loop never opens or releases the capture. *)
Lemma sampling_loop_handle (limit : Z) (pending : list (outcome Frame)) :
  forall (idx : Z) (st : PyState Frame),
    handle_open (snd (sampling_loop shape mtcnn_detect score_face limit idx pending st))
      = handle_open st /\
    release_calls (snd (sampling_loop shape mtcnn_detect score_face limit idx pending st))
      = release_calls st.
Proof.
  induction pending as [| ev rest IH]; intros idx st; simpl.
  - destruct (idx <? limit); simpl; auto.
  - destruct (idx <? limit); [| simpl; auto].
    destruct ev as [frame | e]; [| simpl; auto].
    pose proof (process_frame_handle (idx + 1) frame (note_read frame st)) as Hp.
    simpl in Hp.
    destruct (process_frame shape mtcnn_detect score_face (idx + 1) frame (note_read frame st))
      as [[[] | e] st'] eqn:E; simpl in Hp.
    + destruct (IH (idx + 1) st') as [H1 H2].
      rewrite H1, H2. destruct Hp as (Ha & Hb & _). simpl in Ha, Hb. auto.
    + simpl. destruct Hp as (Ha & Hb & _). auto.
Qed.

(** With every read delivering a frame and every failure caught, the loop
    reads the first [limit - idx] frames in order and appends what each of
    them contributes. *)
Lemma sampling_loop_frames (limit : Z) (frames : list Frame) :
  (forall f, In f frames -> catchable (try_outcome shape mtcnn_detect score_face f)) ->
  forall (idx : Z) (st : PyState Frame),
  exists st',
    sampling_loop shape mtcnn_detect score_face limit idx (map Return frames) st
      = (Return tt, st') /\
    handle_open st' = handle_open st /\
    release_calls st' = release_calls st /\
    frames_read st' = frames_read st ++ firstn (Z.to_nat (limit - idx)) frames /\
    predictions st' =
      predictions st ++
      flat_map (frame_scores shape mtcnn_detect score_face)
               (firstn (Z.to_nat (limit - idx)) frames).
Proof.
  induction frames as [| frame rest IH]; intros Hc idx st.
  - exists st. rewrite firstn_nil. simpl. rewrite !app_nil_r.
    destruct (idx <? limit); auto.
  - simpl map. simpl sampling_loop.
    destruct (Z.ltb_spec idx limit) as [Hlt | Hge].
    + destruct (process_frame_recovers (idx + 1) frame (note_read frame st))
        as (st1 & E1 & Ho & Hr & Hf & Hp).
      { apply Hc. left. reflexivity. }
      rewrite E1.
      destruct (IH (fun f Hf => Hc f (or_intror Hf)) (idx + 1) st1)
        as (st' & E' & Ho' & Hr' & Hf' & Hp').
      exists st'. split; [exact E' |].
      replace (Z.to_nat (limit - idx)) with (S (Z.to_nat (limit - (idx + 1)))) by lia.
      simpl firstn. simpl flat_map.
      rewrite Ho', Hr', Hf', Hp', Ho, Hr, Hf, Hp. simpl.
      rewrite <- !app_assoc. simpl. auto.
    + exists st. replace (Z.to_nat (limit - idx)) with 0%nat by lia.
      simpl. rewrite !app_nil_r. auto.
Qed.

Lemma sampling_loop_aborts (limit : Z) (frames : list Frame) (ev : outcome Frame)
      (e : pyexn) (rest : list (outcome Frame)) :
  (forall f, In f frames -> catchable (try_outcome shape mtcnn_detect score_face f)) ->
  uncaught shape mtcnn_detect score_face ev e ->
  forall (idx : Z) (st : PyState Frame),
    idx + Z.of_nat (List.length frames) < limit ->
    fst (sampling_loop shape mtcnn_detect score_face limit idx
           (map Return frames ++ ev :: rest) st) = Raise e.
Proof.
  intros Hc Hev. induction frames as [| frame more IH]; intros idx st Hlen.
  - simpl in Hlen. simpl.
    destruct (Z.ltb_spec idx limit); [| lia].
    destruct ev as [frame | e']; simpl in Hev.
    + destruct Hev as [Ht He]. rewrite process_frame_eq, Ht, He. reflexivity.
    + subst e'. reflexivity.
  - simpl List.length in Hlen. simpl.
    destruct (Z.ltb_spec idx limit); [| lia].
    destruct (process_frame_recovers (idx + 1) frame (note_read frame st))
      as (st1 & E1 & _).
    { apply Hc. left. reflexivity. }
    rewrite E1. apply IH.
    * intros f Hf. apply Hc. right. exact Hf.
    * lia.
Qed.

(** ** The whole function *)

(** A run that returns went through the loop, released the capture and
    formatted the scores it had collected. *)
Lemma predict_on_video_returns (video : Video Frame) (max_frames : Z)
      (s : string) (st : PyState Frame) :
  predict_on_video shape mtcnn_detect score_face video max_frames = (Return s, st) ->
  openable video = true /\
  exists st',
    sampling_loop shape mtcnn_detect score_face
      (Z.min max_frames (reported_frame_count video)) 0 (stream video)
      (open_handle initial_state) = (Return tt, st') /\
    st = release st' /\
    s = decision_string (predictions st').
Proof.
  unfold predict_on_video. destruct (openable video); simpl; [| discriminate].
  destruct (sampling_loop shape mtcnn_detect score_face
              (Z.min max_frames (reported_frame_count video)) 0 (stream video)
              (open_handle initial_state)) as [[[] | e] st'] eqn:E; [| discriminate].
  intros H. injection H as Hs Hst. split; [reflexivity |].
  exists st'. auto.
Qed.

(** A video whose reads all deliver a frame and whose failures are all
    caught is processed to the end. *)
Lemma predict_on_video_frames (video : Video Frame) (max_frames : Z) (frames : list Frame) :
  openable video = true ->
  stream video = map Return frames ->
  (forall f, In f frames -> catchable (try_outcome shape mtcnn_detect score_face f)) ->
  let n := Z.to_nat (Z.min max_frames (reported_frame_count video)) in
  exists st,
    predict_on_video shape mtcnn_detect score_face video max_frames
      = (Return (decision_string (predictions st)), st) /\
    handle_open st = false /\
    release_calls st = 1%nat /\
    frames_read st = firstn n frames /\
    predictions st = flat_map (frame_scores shape mtcnn_detect score_face) (firstn n frames).
Proof.
  intros Ho Hs Hc n. unfold predict_on_video. rewrite Ho, Hs. simpl negb. cbv iota.
  destruct (sampling_loop_frames (Z.min max_frames (reported_frame_count video)) frames Hc
              0 (open_handle initial_state)) as (st' & E & H1 & H2 & H3 & H4).
  rewrite E. exists (release st'). rewrite Z.sub_0_r in H3, H4. simpl in *.
  rewrite H2, H3, H4. auto.
Qed.


(** Every collected score is a value the scoring chain returned. *)
Lemma scores_until_failure_range (frame : Frame) (boxes : list Box) (q : Q) :
  In q (scores_until_failure shape score_face frame boxes) ->
  exists face, score_face face = Return q.
Proof.
  induction boxes as [| box rest IH]; simpl; [intros [] |].
  destruct (crop_score shape score_face frame box) as [[pred |] | e] eqn:E.
  - intros [Hq | Hq]; [| exact (IH Hq)]. subst pred.
    unfold crop_score in E.
    destruct (box_to_ints box) as [ints | e]; [| discriminate].
    destruct (shape frame) as [h w].
    destruct (clamp_box h w ints) as [[[x1 y1] x2] y2].
    destruct (face_size (crop shape frame y1 y2 x1 x2) =? 0); [discriminate |].
    destruct (score_face (crop shape frame y1 y2 x1 x2)) as [pred | e] eqn:Es;
      [| discriminate].
    injection E as E. subst pred. eexists. exact Es.
  - exact IH.
  - intros [].
Qed.

Lemma frame_scores_range (frame : Frame) (q : Q) :
  In q (frame_scores shape mtcnn_detect score_face frame) ->
  exists face, score_face face = Return q.
Proof.
  unfold frame_scores. destruct (mtcnn_detect frame) as [[boxes |] | e].
  - apply scores_until_failure_range.
  - intros [].
  - intros [].
Qed.

Lemma process_frame_predictions (idx : Z) (frame : Frame) (st : PyState Frame) :
  predictions (snd (process_frame shape mtcnn_detect score_face idx frame st)) =
  predictions st ++ frame_scores shape mtcnn_detect score_face frame.
Proof.
  rewrite process_frame_eq.
  destruct (try_outcome shape mtcnn_detect score_face frame) as [[] | e]; [reflexivity |].
  destruct (is_Exception e); reflexivity.
Qed.

Lemma sampling_loop_range (limit : Z) (pending : list (outcome Frame)) (q : Q) :
  forall (idx : Z) (st : PyState Frame),
    In q (predictions (snd (sampling_loop shape mtcnn_detect score_face limit idx pending st))) ->
    In q (predictions st) \/ exists face, score_face face = Return q.
Proof.
  induction pending as [| ev rest IH]; intros idx st; simpl.
  - destruct (idx <? limit); simpl; auto.
  - destruct (idx <? limit); [| simpl; auto].
    destruct ev as [frame | e]; [| simpl; auto].
    pose proof (process_frame_predictions (idx + 1) frame (note_read frame st)) as Hp.
    destruct (process_frame shape mtcnn_detect score_face (idx + 1) frame (note_read frame st))
      as [[[] | e] st'] eqn:E; simpl in Hp.
    + intros Hq. destruct (IH (idx + 1) st' Hq) as [Hin | Hex]; [| right; exact Hex].
      rewrite Hp in Hin. apply in_app_or in Hin.
      destruct Hin as [Hin | Hin]; [left; exact Hin | right].
      exact (frame_scores_range frame q Hin).
    + simpl. rewrite Hp. intros Hq. apply in_app_or in Hq.
      destruct Hq as [Hin | Hin]; [left; exact Hin | right].
      exact (frame_scores_range frame q Hin).
Qed.

(** The string a run returns is the decision for the scores it collected. *)
Lemma predict_on_video_decision (video : Video Frame) (max_frames : Z)
      (s : string) (st : PyState Frame) :
  predict_on_video shape mtcnn_detect score_face video max_frames = (Return s, st) ->
  s = decision_string (predictions st) /\
  forall q, In q (predictions st) -> exists face, score_face face = Return q.
Proof.
  intros Hrun.
  destruct (predict_on_video_returns video max_frames s st Hrun)
    as (_ & st' & Hloop & Hst & Hs).
  subst st. simpl. split; [exact Hs |].
  intros q Hq.
  pose proof (sampling_loop_range (Z.min max_frames (reported_frame_count video))
                (stream video) q 0 (open_handle initial_state)) as Hr.
  rewrite Hloop in Hr. simpl in Hr.
  destruct (Hr Hq) as [[] | Hex]. exact Hex.
Qed.

(** ** Confidence *)

(** C9. When every score the classifier returns lies in [0, 1], a run that
    ends with a verdict reports a confidence of at least 50: above 50 (and
    at most 100) for FAKE, between 50 and 100 for REAL. *)
Theorem confidence_at_least_half (video : Video Frame) (max_frames : Z)
        (s : string) (st : PyState Frame) (label : Label) (c : Q) :
  (forall face q, score_face face = Return q -> 0 <= q /\ q <= 1)%Q ->
  predict_on_video shape mtcnn_detect score_face video max_frames = (Return s, st) ->
  aggregate (predictions st) = Verdict label c ->
  s = render (Verdict label c) /\
  (50 <= c)%Q /\
  (label = FAKE -> (50 < c /\ c <= 100)%Q) /\
  (label = REAL -> (50 <= c /\ c <= 100)%Q).
Proof.
  intros Hscore Hrun Hagg.
  destruct (predict_on_video_decision video max_frames s st Hrun) as [Hs Hrange].
  split.
  - rewrite Hs. unfold decision_string. rewrite Hagg. reflexivity.
  - apply (aggregate_confidence_bounds (predictions st) label c); [| exact Hagg].
    intros q Hq. destruct (Hrange q Hq) as [face Hface]. exact (Hscore face q Hface).
Qed.

(** ** Sampling *)

(** C2. When the source opens and every read delivers a frame, the loop
    processes the first [min(max_frames, frame_count)] frames in stream
    order and nothing else; when the stream ends before that many frames
    were read, it has read them all and the function still returns. *)
Theorem sampling_reads_first_frames (video : Video Frame) (max_frames : Z)
        (frames : list Frame) :
  openable video = true ->
  stream video = map Return frames ->
  (forall f, In f frames -> catchable (mtcnn_detect f)) ->
  (forall face, In (face_source face) frames -> catchable (score_face face)) ->
  let cap := Z.min max_frames (reported_frame_count video) in
  exists s st,
    predict_on_video shape mtcnn_detect score_face video max_frames = (Return s, st) /\
    frames_read st = firstn (Z.to_nat cap) frames /\
    (reported_frame_count video = Z.of_nat (List.length frames) -> 0 <= max_frames ->
       Z.of_nat (List.length (frames_read st)) = cap) /\
    (Z.of_nat (List.length frames) <= cap -> frames_read st = frames).
Proof.
  intros Ho Hs Hd Hc cap.
  destruct (predict_on_video_frames video max_frames frames Ho Hs)
    as (st & E & _ & _ & Hf & _).
  { intros f Hf. apply try_outcome_catchable; [apply Hd; exact Hf |].
    intros face Hsrc. apply Hc. rewrite Hsrc. exact Hf. }
  exists (decision_string (predictions st)), st.
  split; [exact E |]. split; [exact Hf |]. split.
  - intros Hcount Hmax. rewrite Hf, length_firstn. fold cap. unfold cap. lia.
  - intros Hshort. rewrite Hf. apply firstn_all2. fold cap. lia.
Qed.

(** C10. With a frame budget of zero or less, or a reported frame count of
    zero, an opened video is not read at all and the result is the
    no-evidence message. *)
Theorem no_budget_no_frames (video : Video Frame) (max_frames : Z) :
  openable video = true ->
  max_frames <= 0 \/ reported_frame_count video = 0 ->
  exists st,
    predict_on_video shape mtcnn_detect score_face video max_frames
      = (Return no_face_message, st) /\
    frames_read st = [] /\
    predictions st = [] /\
    aggregate (predictions st) = NoEvidence.
Proof.
  intros Ho Hz. unfold predict_on_video. rewrite Ho. simpl negb. cbv iota.
  rewrite sampling_loop_done by lia.
  eexists. split; [reflexivity |]. simpl. auto.
Qed.

(** C7. A run that ends its loop with no score returns the no-evidence
    message, and no FAKE or REAL message equals it. *)
Theorem no_scores_no_evidence (video : Video Frame) (max_frames : Z)
        (s : string) (st : PyState Frame) :
  predict_on_video shape mtcnn_detect score_face video max_frames = (Return s, st) ->
  predictions st = [] ->
  aggregate (predictions st) = NoEvidence /\
  s = no_face_message /\
  (forall (l : Label) (c : Q), render (Verdict l c) <> s).
Proof.
  intros Hrun Hempty.
  destruct (predict_on_video_returns video max_frames s st Hrun)
    as (_ & st' & _ & Hst & Hs).
  subst st. simpl in Hempty. rewrite Hempty in Hs. simpl.
  rewrite Hempty. split; [reflexivity |]. split; [exact Hs |].
  intros l c. rewrite Hs. apply render_verdict_not_sentinel.
Qed.

(** ** Failures *)

(** C3, as the code has it.  A failure propagates to the caller when it is
    raised by a read of the capture, or when it is raised while a frame is
    processed and is not an instance of [Exception].  An [Exception] raised
    while a frame is processed, whatever raised it, is absorbed by the
    handler and the loop goes on. *)
Theorem uncaught_failure_propagates (video : Video Frame) (max_frames : Z)
        (frames : list Frame) (ev : outcome Frame) (rest : list (outcome Frame))
        (e : pyexn) :
  openable video = true ->
  stream video = map Return frames ++ ev :: rest ->
  (forall f, In f frames -> catchable (try_outcome shape mtcnn_detect score_face f)) ->
  uncaught shape mtcnn_detect score_face ev e ->
  Z.of_nat (List.length frames) < Z.min max_frames (reported_frame_count video) ->
  fst (predict_on_video shape mtcnn_detect score_face video max_frames) = Raise e /\
  (forall (idx : Z) (frame : Frame) (st : PyState Frame) (e' : pyexn),
     try_outcome shape mtcnn_detect score_face frame = Raise e' ->
     is_Exception e' = true ->
     fst (process_frame shape mtcnn_detect score_face idx frame st) = Return tt).
Proof.
  intros Ho Hs Hc Hev Hlen. split.
  - unfold predict_on_video. rewrite Ho, Hs. simpl negb. cbv iota.
    pose proof (sampling_loop_aborts (Z.min max_frames (reported_frame_count video))
                  frames ev e rest Hc Hev 0 (open_handle initial_state)) as Habort.
    destruct (sampling_loop shape mtcnn_detect score_face
                (Z.min max_frames (reported_frame_count video)) 0
                (map Return frames ++ ev :: rest) (open_handle initial_state))
      as [[[] | e0] st'].
    + simpl in Habort. discriminate Habort. lia.
    + simpl in *. assert (He : Raise (A := unit) e0 = Raise e) by (apply Habort; lia).
      injection He as He. rewrite He. reflexivity.
  - intros idx frame st e' Ht He. rewrite process_frame_eq, Ht, He. reflexivity.
Qed.

(** C4, as the code has it.  Whenever the function returns a result, the
    capture was released exactly once and is closed; when the video cannot
    be opened the function raises "Could not open video file" with no open
    capture and nothing read; and a video whose reads all deliver a frame
    and whose failures are all caught does return. *)
Theorem handle_released_on_return (video : Video Frame) (max_frames : Z)
        (r : outcome string) (st : PyState Frame) :
  predict_on_video shape mtcnn_detect score_face video max_frames = (r, st) ->
  (forall s, r = Return s -> release_calls st = 1%nat /\ handle_open st = false) /\
  (openable video = false ->
     r = Raise (Exception_ "Could not open video file") /\
     release_calls st = 0%nat /\ handle_open st = false /\ frames_read st = []) /\
  (forall frames,
     openable video = true ->
     stream video = map Return frames ->
     (forall f, In f frames -> catchable (try_outcome shape mtcnn_detect score_face f)) ->
     exists s, r = Return s /\ release_calls st = 1%nat /\ handle_open st = false).
Proof.
  intros Hrun. split; [| split].
  - intros s Hr. subst r.
    destruct (predict_on_video_returns video max_frames s st Hrun)
      as (_ & st' & Hloop & Hst & _).
    destruct (sampling_loop_handle (Z.min max_frames (reported_frame_count video))
                (stream video) 0 (open_handle initial_state)) as [_ Hrel].
    rewrite Hloop in Hrel. simpl in Hrel. subst st. simpl. rewrite Hrel. auto.
  - intros Hno. unfold predict_on_video in Hrun. rewrite Hno in Hrun. simpl in Hrun.
    injection Hrun as Hr Hst. subst r st. simpl. auto.
  - intros frames Ho Hs Hc.
    destruct (predict_on_video_frames video max_frames frames Ho Hs Hc)
      as (st0 & E & Hopen & Hrel & _).
    rewrite E in Hrun. injection Hrun as Hr Hst. subst r st.
    eexists. split; [reflexivity |]. auto.
Qed.

(** C5, as the code has it.  An [Exception] raised by detection, by the
    conversion of a box or by classification is recoverable at the level of
    the frame: the frame keeps the scores appended before the failure, its
    remaining crops are skipped, and the loop goes on with the following
    frames, so the function returns with the contributions of all processed
    frames.  A frame whose detection fails contributes nothing; a frame in
    which nothing fails contributes the score of every non-empty crop. *)
Theorem failure_skips_rest_of_frame (video : Video Frame) (max_frames : Z)
        (frames : list Frame) :
  openable video = true ->
  stream video = map Return frames ->
  (forall f, In f frames -> catchable (mtcnn_detect f)) ->
  (forall face, In (face_source face) frames -> catchable (score_face face)) ->
  let processed := firstn (Z.to_nat (Z.min max_frames (reported_frame_count video))) frames in
  (exists s st,
     predict_on_video shape mtcnn_detect score_face video max_frames = (Return s, st) /\
     frames_read st = processed /\
     predictions st = flat_map (frame_scores shape mtcnn_detect score_face) processed) /\
  (forall f e, mtcnn_detect f = Raise e ->
     frame_scores shape mtcnn_detect score_face f = []) /\
  (forall f pre box post e,
     mtcnn_detect f = Return (Some (pre ++ box :: post)) ->
     crop_score shape score_face f box = Raise e ->
     frame_scores shape mtcnn_detect score_face f
       = scores_until_failure shape score_face f pre) /\
  (forall f, try_outcome shape mtcnn_detect score_face f = Return tt ->
     frame_scores shape mtcnn_detect score_face f
       = frame_scores_spec shape mtcnn_detect score_face f).
Proof.
  intros Ho Hs Hd Hc processed. split; [| split; [| split]].
  - destruct (predict_on_video_frames video max_frames frames Ho Hs)
      as (st & E & _ & _ & Hf & Hp).
    { intros f Hf. apply try_outcome_catchable; [apply Hd; exact Hf |].
      intros face Hsrc. apply Hc. rewrite Hsrc. exact Hf. }
    exists (decision_string (predictions st)), st. auto.
  - intros f e Hf. unfold frame_scores. rewrite Hf. reflexivity.
  - intros f pre box post e Hf Hb. unfold frame_scores. rewrite Hf.
    apply (scores_until_failure_cut f pre post box e Hb).
  - intros f Hf. unfold frame_scores, frame_scores_spec. unfold try_outcome in Hf.
    destruct (mtcnn_detect f) as [[boxes |] | e]; [| reflexivity | reflexivity].
    apply scores_without_failure. exact Hf.
Qed.

(** ** Clamping *)

(** When the clamped end coordinates are not negative, a crop is empty
    exactly when the clamped box is degenerate. *)
Lemma crop_empty_iff_degenerate (frame : Frame) (h w x1 y1 x2 y2 : Z) :
  shape frame = (h, w) -> 0 <= h -> 0 <= w -> 0 <= x2 -> 0 <= y2 ->
  face_size (crop shape frame (Z.max 0 y1) (Z.min h y2) (Z.max 0 x1) (Z.min w x2)) = 0 <->
  Z.min w x2 <= Z.max 0 x1 \/ Z.min h y2 <= Z.max 0 y1.
Proof.
  intros Hshape Hh Hw Hx Hy. unfold crop, face_size. rewrite Hshape. simpl.
  rewrite (slice_bound_inside h (Z.min h y2)), (slice_bound_inside w (Z.min w x2)) by lia.
  destruct (Z.le_gt_cases (Z.max 0 y1) h) as [Hy1 | Hy1];
    [rewrite (slice_bound_inside h (Z.max 0 y1)) by lia
    | rewrite (slice_bound_beyond h (Z.max 0 y1)) by lia];
    (destruct (Z.le_gt_cases (Z.max 0 x1) w) as [Hx1 | Hx1];
     [rewrite (slice_bound_inside w (Z.max 0 x1)) by lia
     | rewrite (slice_bound_beyond w (Z.max 0 x1)) by lia]);
    split; intros H; try nia.
Qed.

(** A negative clamped end coordinate is read by the slice as counted from
    the far edge: the clamped box is degenerate and the crop is not empty. *)
Lemma crop_nonempty_left_of_frame (frame : Frame) (h w x1 y1 x2 y2 : Z) :
  shape frame = (h, w) ->
  x1 <= x2 -> x2 < 0 -> - w < x2 ->
  0 <= y1 -> y1 < y2 -> y2 <= h ->
  Z.min w x2 <= Z.max 0 x1 /\
  0 < face_size (crop shape frame (Z.max 0 y1) (Z.min h y2) (Z.max 0 x1) (Z.min w x2)).
Proof.
  intros Hshape Hx12 Hx2 Hw Hy1 Hy12 Hy2. split; [lia |].
  unfold crop, face_size. rewrite Hshape. simpl.
  replace (Z.max 0 x1) with 0 by lia. replace (Z.min w x2) with x2 by lia.
  replace (Z.max 0 y1) with y1 by lia. replace (Z.min h y2) with y2 by lia.
  rewrite (slice_bound_inside h y1), (slice_bound_inside h y2),
    (slice_bound_inside w 0), (slice_bound_negative w x2) by lia.
  rewrite (Z.max_r 0 (y2 - y1)), (Z.max_r 0 (x2 + w - 0)) by lia.
  apply Z.mul_pos_pos; [apply Z.mul_pos_pos |]; lia.
Qed.

End PipelineFacts.

(** * The results on concrete videos *)

Lemma sampling_reads_first_frames_witness :
  exists s st,
    Scenario.run (Scenario.video_of
                    [Scenario.plain_frame; Scenario.empty_frame; Scenario.plain_frame]) 2
      = (Return s, st) /\
    frames_read st = [Scenario.plain_frame; Scenario.empty_frame].
Proof.
  pose (frames := [Scenario.plain_frame; Scenario.empty_frame; Scenario.plain_frame]).
  assert (Hd : forall f, In f frames -> catchable (Scenario.tf_detect f)).
  { intros f [<- | [<- | [<- | []]]]; exact I. }
  assert (Hc : forall face, In (face_source face) frames ->
                            catchable (Scenario.tf_score_face face)).
  { intros face [H | [H | [H | []]]]; unfold Scenario.tf_score_face; rewrite <- H; exact I. }
  destruct (sampling_reads_first_frames Scenario.tf_shape Scenario.tf_detect
              Scenario.tf_score_face (Scenario.video_of frames) 2 frames
              eq_refl eq_refl Hd Hc) as (s & st & E & Hf & _).
  exists s, st. split; [exact E | exact Hf].
Defined.

Lemma no_budget_no_frames_witness :
  exists st,
    Scenario.run (Scenario.video_of [Scenario.plain_frame]) 0
      = (Return no_face_message, st) /\
    frames_read st = [] /\ predictions st = [] /\ aggregate (predictions st) = NoEvidence.
Proof.
  apply (no_budget_no_frames Scenario.tf_shape Scenario.tf_detect Scenario.tf_score_face
           (Scenario.video_of [Scenario.plain_frame]) 0 eq_refl).
  left. lia.
Defined.

Lemma no_scores_no_evidence_witness :
  fst (Scenario.run (Scenario.video_of [Scenario.empty_frame]) 50) = Return no_face_message /\
  forall (l : Label) (c : Q), render (Verdict l c) <> no_face_message.
Proof.
  destruct (no_scores_no_evidence Scenario.tf_shape Scenario.tf_detect Scenario.tf_score_face
              (Scenario.video_of [Scenario.empty_frame]) 50 no_face_message
              (snd (Scenario.run (Scenario.video_of [Scenario.empty_frame]) 50))
              eq_refl eq_refl) as (_ & _ & H).
  split; [reflexivity | exact H].
Defined.

Lemma confidence_at_least_half_witness :
  fst (predict_on_video Scenario.tf_shape Scenario.tf_detect
         (Scenario.constant_score (9 # 10))
         (Scenario.video_of [Scenario.plain_frame]) 50)
    = Return (render (Verdict FAKE (f64_mul (np_mean [9 # 10]) 100))) /\
  (50 < f64_mul (np_mean [9 # 10]) 100 /\ f64_mul (np_mean [9 # 10]) 100 <= 100)%Q.
Proof.
  pose (v := Scenario.video_of [Scenario.plain_frame]).
  pose (r := predict_on_video Scenario.tf_shape Scenario.tf_detect
               (Scenario.constant_score (9 # 10)) v 50).
  assert (Hscore : (forall (face : Face Scenario.TestFrame) q,
                       Scenario.constant_score (9 # 10) face = Return q ->
                       0 <= q /\ q <= 1)%Q).
  { intros face q H. injection H as H. subst q. split; discriminate. }
  assert (Hrun : r = (Return (render (Verdict FAKE (f64_mul (np_mean [9 # 10]) 100))), snd r))
    by (vm_compute; reflexivity).
  assert (Hagg : aggregate (predictions (snd r))
                 = Verdict FAKE (f64_mul (np_mean [9 # 10]) 100))
    by (vm_compute; reflexivity).
  destruct (confidence_at_least_half Scenario.tf_shape Scenario.tf_detect
              (Scenario.constant_score (9 # 10)) v 50
              (render (Verdict FAKE (f64_mul (np_mean [9 # 10]) 100))) (snd r)
              FAKE (f64_mul (np_mean [9 # 10]) 100) Hscore Hrun Hagg)
    as (_ & _ & Hfake & _).
  split; [vm_compute; reflexivity | exact (Hfake eq_refl)].
Defined.

(** An interrupt during detection is not caught by the handler. *)
Example interrupt_propagates :
  fst (Scenario.run (Scenario.video_of [Scenario.plain_frame; Scenario.interrupted]) 50)
    = Raise (BaseException_ "KeyboardInterrupt").
Proof. reflexivity. Qed.

(** Scenario C: ten frames without a face. *)
Example scenario_C :
  fst (Scenario.run (Scenario.video_of (repeat Scenario.empty_frame 10)) 50)
    = Return no_face_message.
Proof. reflexivity. Qed.

(** The failure of [int()] on a NaN coordinate is neither a failure to open
    the video, nor a failure of the detector (which returned its boxes), nor
    a failure of the classifier (which was not called); the run absorbs it
    and ends with the no-evidence message.  This is what C3, as stated,
    excludes. *)
Lemma conversion_failure_absorbed :
  (exists boxes, Scenario.tf_detect Scenario.nan_box_frame = Return (Some boxes)) /\
  try_outcome Scenario.tf_shape Scenario.tf_detect Scenario.tf_score_face
    Scenario.nan_box_frame
    = Raise (Exception_ "ValueError: cannot convert float NaN to integer") /\
  fst (Scenario.run (Scenario.video_of [Scenario.nan_box_frame]) 50)
    = Return no_face_message.
Proof.
  split; [eexists; reflexivity |]. split; reflexivity.
Qed.

Lemma uncaught_failure_propagates_witness :
  fst (Scenario.run Scenario.broken_read 50) = Raise (Exception_ "cv2.error: decoder failure").
Proof.
  apply (uncaught_failure_propagates Scenario.tf_shape Scenario.tf_detect
           Scenario.tf_score_face Scenario.broken_read 50
           [Scenario.plain_frame] (Raise (Exception_ "cv2.error: decoder failure"))
           [Return Scenario.plain_frame]).
  - reflexivity.
  - reflexivity.
  - intros f [<- | []]. exact I.
  - reflexivity.
  - simpl. lia.
Defined.

(** When a read of the capture raises, the function is left with the
    capture open and [cap.release()] not called.  This is what C4, as
    stated, excludes. *)
Lemma handle_left_open_on_abort :
  fst (Scenario.run Scenario.broken_read 50)
    = Raise (Exception_ "cv2.error: decoder failure") /\
  release_calls (snd (Scenario.run Scenario.broken_read 50)) = 0%nat /\
  handle_open (snd (Scenario.run Scenario.broken_read 50)) = true.
Proof. repeat split; reflexivity. Qed.

Lemma handle_released_on_return_witness :
  release_calls
    (snd (Scenario.run (Scenario.video_of [Scenario.detect_fails; Scenario.plain_frame]) 50))
    = 1%nat /\
  handle_open
    (snd (Scenario.run (Scenario.video_of [Scenario.detect_fails; Scenario.plain_frame]) 50))
    = false.
Proof.
  pose (v := Scenario.video_of [Scenario.detect_fails; Scenario.plain_frame]).
  destruct (handle_released_on_return Scenario.tf_shape Scenario.tf_detect
              Scenario.tf_score_face v 50 (fst (Scenario.run v 50)) (snd (Scenario.run v 50))
              eq_refl) as (H & _).
  exact (H _ eq_refl).
Defined.

(** Scenario D: the video cannot be opened. *)
Example scenario_D :
  Scenario.run Scenario.unopenable 50
    = (Raise (Exception_ "Could not open video file"), initial_state).
Proof. reflexivity. Qed.

(** A frame with two faces, where scoring the first fails and the second
    would score 9/10: the second crop is never scored and the run ends with
    the no-evidence message, where skipping only the failed crop would have
    collected 9/10.  This is what C5, as stated, excludes. *)
Lemma later_crop_lost :
  crop_score Scenario.tf_shape Scenario.tf_score_face Scenario.first_crop_fails
    (Scenario.box_of_Z 60 10 90 50) = Return (Some (9 # 10)%Q) /\
  frame_scores_spec Scenario.tf_shape Scenario.tf_detect Scenario.tf_score_face
    Scenario.first_crop_fails = [(9 # 10)%Q] /\
  predictions (snd (Scenario.run (Scenario.video_of [Scenario.first_crop_fails]) 50)) = [] /\
  predictions (snd (Scenario.run (Scenario.video_of [Scenario.first_crop_fails]) 50))
    <> flat_map (frame_scores_spec Scenario.tf_shape Scenario.tf_detect Scenario.tf_score_face)
         [Scenario.first_crop_fails] /\
  fst (Scenario.run (Scenario.video_of [Scenario.first_crop_fails]) 50)
    = Return no_face_message.
Proof.
  split; [reflexivity |]. split; [reflexivity |]. split; [reflexivity |].
  split; [discriminate | reflexivity].
Qed.

Lemma failure_skips_rest_of_frame_witness :
  exists s st,
    Scenario.run (Scenario.video_of
                    [Scenario.detect_fails; Scenario.first_crop_fails; Scenario.plain_frame]) 50
      = (Return s, st) /\
    predictions st = [(9 # 10)%Q].
Proof.
  pose (frames := [Scenario.detect_fails; Scenario.first_crop_fails; Scenario.plain_frame]).
  assert (Hd : forall f, In f frames -> catchable (Scenario.tf_detect f)).
  { intros f [<- | [<- | [<- | []]]]; exact I. }
  assert (Hc : forall face, In (face_source face) frames ->
                            catchable (Scenario.tf_score_face face)).
  { intros face [H | [H | [H | []]]]; unfold Scenario.tf_score_face; rewrite <- H;
      simpl; try exact I.
    destruct (col_lo face =? 10); exact I. }
  destruct (failure_skips_rest_of_frame Scenario.tf_shape Scenario.tf_detect
              Scenario.tf_score_face (Scenario.video_of frames) 50 frames
              eq_refl eq_refl Hd Hc) as ((s & st & E & _ & Hp) & _).
  exists s, st. split; [exact E | exact Hp].
Defined.

(** C6, at a box wholly to the left of a 100x100 frame.  The clamped box
    (0, 10, -10, 50) has [x2 <= x1], yet the slice [frame[10:50, 0:-10]]
    selects columns 0 to 89; the crop is not empty, it is scored, and its
    score decides the verdict. *)
Theorem box_left_of_frame_is_scored :
  box_to_ints (Scenario.box_of_Z (-20) 10 (-10) 50) = Return (-20, 10, -10, 50) /\
  clamp_box 100 100 (-20, 10, -10, 50) = (0, 10, -10, 50) /\
  crop Scenario.tf_shape Scenario.left_of_frame 10 50 0 (-10) = mkFace Scenario.left_of_frame 10 50 0 90 /\
  face_size (crop Scenario.tf_shape Scenario.left_of_frame 10 50 0 (-10)) = 10800 /\
  crop_score Scenario.tf_shape Scenario.tf_score_face Scenario.left_of_frame
    (Scenario.box_of_Z (-20) 10 (-10) 50)
    = Return (Some (9 # 10)%Q) /\
  predictions (snd (Scenario.run (Scenario.video_of [Scenario.left_of_frame]) 50)) = [(9 # 10)%Q] /\
  fst (Scenario.run (Scenario.video_of [Scenario.left_of_frame]) 50)
    = Return "Video is 90.00% likely to be a FAKE."%string.
Proof. repeat split; reflexivity. Qed.

(** * Facts about [allowed_file] *)

Lemma rsplit_last_none (c : ascii) (s : string) :
  rsplit_last c s = None <-> str_contains c s = false.
Proof.
  induction s as [| a rest IH]; simpl; [tauto |].
  destruct (rsplit_last c rest) as [[head tail] |].
  - split; [discriminate |]. intros H. apply Bool.orb_false_iff in H.
    destruct H as [_ H]. apply IH in H. discriminate.
  - destruct (Ascii.eqb a c); simpl; [split; discriminate |].
    split; intros _; [apply IH |]; reflexivity.
Qed.

Lemma rsplit_last_some (c : ascii) (s head tail : string) :
  rsplit_last c s = Some (head, tail) ->
  s = (head ++ String c tail)%string /\ str_contains c tail = false.
Proof.
  revert head. induction s as [| a rest IH]; intros head; simpl; [discriminate |].
  destruct (rsplit_last c rest) as [[h t] |] eqn:E.
  - intros H. injection H as Hh Ht. subst head t.
    destruct (IH h eq_refl) as [Hs Hc]. subst rest. auto.
  - destruct (Ascii.eqb_spec a c) as [-> | Hne]; [| discriminate].
    intros H. injection H as Hh Ht. subst head rest.
    split; [reflexivity |]. apply rsplit_last_none. exact E.
Qed.

Lemma rsplit_last_app (c : ascii) (head tail : string) :
  str_contains c tail = false ->
  rsplit_last c (head ++ String c tail) = Some (head, tail).
Proof.
  intros Hc. induction head as [| a head IH]; simpl.
  - apply rsplit_last_none in Hc. rewrite Hc, Ascii.eqb_refl. reflexivity.
  - rewrite IH. reflexivity.
Qed.

Lemma str_contains_app (c : ascii) (head tail : string) :
  str_contains c (head ++ String c tail) = true.
Proof.
  induction head as [| a head IH]; simpl.
  - rewrite Ascii.eqb_refl. reflexivity.
  - rewrite IH. apply Bool.orb_true_r.
Qed.

Lemma in_allowed_extensions_iff (x : string) :
  in_allowed_extensions x = true <-> In x ALLOWED_EXTENSIONS.
Proof.
  unfold in_allowed_extensions. rewrite existsb_exists. split.
  - intros (y & Hy & E). apply String.eqb_eq in E. subst y. exact Hy.
  - intros H. exists x. split; [exact H | apply String.eqb_refl].
Qed.

Section AllowedFileFacts.

Variable str_lower : string -> string.

(** What [allowed_file] computes on a name with a dot. *)
Lemma allowed_file_split (stem extension : string) :
  str_contains "." extension = false ->
  allowed_file str_lower (stem ++ String "." extension)
    = in_allowed_extensions (str_lower extension).
Proof.
  intros Hc. unfold allowed_file, rsplit1.
  rewrite str_contains_app, (rsplit_last_app "." stem extension Hc). reflexivity.
Qed.

(** The index [1] of line 85 is always in range when it is evaluated. *)
Lemma rsplit1_two_parts (name : string) :
  str_contains "." name = true -> exists head tail, rsplit1 "." name = [head; tail].
Proof.
  intros Hc. unfold rsplit1.
  destruct (rsplit_last "." name) as [[head tail] |] eqn:E.
  - exists head, tail. reflexivity.
  - apply rsplit_last_none in E. congruence.
Qed.

(** A file name is accepted exactly when it has the form [stem.extension],
    where the extension holds no further dot and, in lower case, is one of
    the five allowed extensions; the stem is free. *)
Theorem allowed_file_iff (name : string) :
  allowed_file str_lower name = true <->
  exists stem extension,
    name = (stem ++ "." ++ extension)%string /\
    str_contains "." extension = false /\
    In (str_lower extension) ALLOWED_EXTENSIONS.
Proof.
  split.
  - unfold allowed_file, rsplit1. intros H. apply andb_prop in H. destruct H as [_ H].
    destruct (rsplit_last "." name) as [[head tail] |] eqn:E; simpl in H; [| discriminate].
    destruct (rsplit_last_some "." name head tail E) as [Hs Hc].
    exists head, tail. split; [exact Hs |]. split; [exact Hc |].
    apply in_allowed_extensions_iff. exact H.
  - intros (stem & extension & Hs & Hc & Hin). subst name.
    change (stem ++ "." ++ extension)%string with (stem ++ String "." extension)%string.
    rewrite (allowed_file_split stem extension Hc).
    apply in_allowed_extensions_iff. exact Hin.
Qed.

Hypothesis str_lower_ascii : forall s, is_ascii s = true -> str_lower s = ascii_lower s.

(** Only the last extension counts, and its case does not: two names whose
    last extensions are ASCII and equal up to case are both accepted or both
    rejected, whatever precedes the last dot. *)
Theorem allowed_file_by_last_extension (stem stem' extension extension' : string) :
  str_contains "." extension = false ->
  str_contains "." extension' = false ->
  is_ascii extension = true ->
  is_ascii extension' = true ->
  ascii_lower extension = ascii_lower extension' ->
  allowed_file str_lower (stem ++ "." ++ extension)
    = allowed_file str_lower (stem' ++ "." ++ extension').
Proof.
  intros Hc Hc' Ha Ha' Hl.
  change (stem ++ "." ++ extension)%string with (stem ++ String "." extension)%string.
  change (stem' ++ "." ++ extension')%string with (stem' ++ String "." extension')%string.
  rewrite (allowed_file_split stem extension Hc), (allowed_file_split stem' extension' Hc').
  rewrite (str_lower_ascii extension Ha), (str_lower_ascii extension' Ha'), Hl. reflexivity.
Qed.

(** A name without a dot and a name that ends in a dot are rejected. *)
Theorem allowed_file_needs_extension (name : string) :
  str_contains "." name = false \/ (exists stem, name = (stem ++ ".")%string) ->
  allowed_file str_lower name = false.
Proof.
  intros [Hc | [stem Hs]].
  - unfold allowed_file. rewrite Hc. reflexivity.
  - subst name. change (stem ++ ".")%string with (stem ++ String "." "")%string.
    rewrite (allowed_file_split stem "" eq_refl).
    rewrite (str_lower_ascii "" eq_refl). reflexivity.
Qed.

End AllowedFileFacts.

Lemma allowed_file_by_last_extension_witness :
  allowed_file ascii_lower "holiday.clip.MP4" = allowed_file ascii_lower "x.mp4".
Proof.
  exact (allowed_file_by_last_extension ascii_lower (fun s _ => eq_refl)
           "holiday.clip" "x" "MP4" "mp4" eq_refl eq_refl eq_refl eq_refl eq_refl).
Defined.

Lemma allowed_file_needs_extension_witness :
  allowed_file ascii_lower "clip." = false.
Proof.
  apply (allowed_file_needs_extension ascii_lower (fun s _ => eq_refl)).
  right. exists "clip"%string. reflexivity.
Defined.

(** * Accounts of a run, whatever the video *)

Lemma slice_bound_range (n i : Z) : 0 <= n -> 0 <= slice_bound n i /\ slice_bound n i <= n.
Proof.
  intros Hn. unfold slice_bound.
  destruct (Z.ltb_spec i 0).
  - destruct (Z.ltb_spec (i + n) 0); [lia |].
    destruct (Z.ltb_spec n (i + n)); lia.
  - destruct (Z.ltb_spec i 0); [lia |].
    destruct (Z.ltb_spec n i); lia.
Qed.

Section RunAccounts.

Context {Frame : Type}.
Variable shape : Frame -> Z * Z.
Variable mtcnn_detect : Frame -> outcome (option (list Box)).
Variable score_face : Face Frame -> outcome Q.

Lemma process_frame_warnings (idx : Z) (frame : Frame) (st : PyState Frame) :
  warnings (snd (process_frame shape mtcnn_detect score_face idx frame st)) =
  warnings st ++
  match try_outcome shape mtcnn_detect score_face frame with
  | Raise e => if is_Exception e then [(idx, e)] else []
  | Return _ => []
  end.
Proof.
  rewrite process_frame_eq.
  destruct (try_outcome shape mtcnn_detect score_face frame) as [[] | e]; simpl.
  - rewrite app_nil_r. reflexivity.
  - destruct (is_Exception e); simpl; [reflexivity | rewrite app_nil_r; reflexivity].
Qed.

(** What the loop does to the state, for any stream: it reads a prefix of
    the stream made of frames only, no longer than the budget left, and
    extends [predictions] and [warnings] by what these frames give. *)
Lemma sampling_loop_accounts (limit : Z) (pending : list (outcome Frame)) :
  forall (idx : Z) (st : PyState Frame),
  exists read rest,
    pending = map Return read ++ rest /\
    (List.length read <= Z.to_nat (limit - idx))%nat /\
    let st' := snd (sampling_loop shape mtcnn_detect score_face limit idx pending st) in
    frames_read st' = frames_read st ++ read /\
    predictions st' =
      predictions st ++ flat_map (frame_scores shape mtcnn_detect score_face) read /\
    warnings st' =
      warnings st ++ logged_failures shape mtcnn_detect score_face idx read.
Proof.
  induction pending as [| ev more IH]; intros idx st.
  - exists [], []. simpl. destruct (idx <? limit); simpl; rewrite !app_nil_r;
      repeat split; lia.
  - simpl sampling_loop. destruct (Z.ltb_spec idx limit) as [Hlt | Hge].
    + destruct ev as [frame | e].
      * pose proof (process_frame_predictions shape mtcnn_detect score_face
                      (idx + 1) frame (note_read frame st)) as Hp.
        pose proof (process_frame_warnings (idx + 1) frame (note_read frame st)) as Hw.
        pose proof (process_frame_handle shape mtcnn_detect score_face
                      (idx + 1) frame (note_read frame st)) as (_ & _ & Hf).
        destruct (process_frame shape mtcnn_detect score_face (idx + 1) frame
                    (note_read frame st)) as [[[] | e] st1] eqn:E;
          simpl in Hp, Hw, Hf.
        -- destruct (IH (idx + 1) st1) as (read & rest & Hpend & Hlen & Hfr & Hpr & Hwa).
           exists (frame :: read), rest. split; [rewrite Hpend; reflexivity |].
           split; [simpl; lia |]. simpl in *.
           rewrite Hfr, Hpr, Hwa, Hf, Hp, Hw. rewrite <- !app_assoc. simpl.
           destruct (try_outcome shape mtcnn_detect score_face frame) as [[] | e];
             [auto |]. destruct (is_Exception e); auto.
        -- exists [frame], more. split; [reflexivity |]. split; [simpl; lia |].
           simpl. rewrite Hf, Hp, Hw, !app_nil_r.
           destruct (try_outcome shape mtcnn_detect score_face frame) as [[] | e'];
             [auto |]. destruct (is_Exception e'); auto.
      * exists [], (Raise e :: more). simpl. rewrite !app_nil_r. repeat split; lia.
    + exists [], (ev :: more). simpl. rewrite !app_nil_r. repeat split; lia.
Qed.

Lemma predict_on_video_accounts (video : Video Frame) (max_frames : Z) :
  exists rest,
    let st := snd (predict_on_video shape mtcnn_detect score_face video max_frames) in
    stream video = map Return (frames_read st) ++ rest /\
    (List.length (frames_read st)
       <= Z.to_nat (Z.min max_frames (reported_frame_count video)))%nat /\
    predictions st = flat_map (frame_scores shape mtcnn_detect score_face) (frames_read st) /\
    warnings st = logged_failures shape mtcnn_detect score_face 0 (frames_read st).
Proof.
  unfold predict_on_video. destruct (openable video); simpl negb; cbv iota.
  - destruct (sampling_loop_accounts (Z.min max_frames (reported_frame_count video))
                (stream video) 0 (open_handle initial_state))
      as (read & rest & Hpend & Hlen & Hfr & Hpr & Hwa).
    exists rest.
    destruct (sampling_loop shape mtcnn_detect score_face
                (Z.min max_frames (reported_frame_count video)) 0 (stream video)
                (open_handle initial_state)) as [[[] | e] st'];
      simpl in *; rewrite Hfr, Hpr, Hwa; rewrite Z.sub_0_r in Hlen; auto.
  - exists (stream video). simpl. repeat split; lia.
Qed.

(** No run reads more frames than [min(max_frames, frame_count)], and the
    frames it reads are the first events of the stream, in order: this holds
    also for runs that a failure cuts short. *)
Theorem frame_budget (video : Video Frame) (max_frames : Z) :
  let st := snd (predict_on_video shape mtcnn_detect score_face video max_frames) in
  (List.length (frames_read st)
     <= Z.to_nat (Z.min max_frames (reported_frame_count video)))%nat /\
  exists rest, stream video = map Return (frames_read st) ++ rest.
Proof.
  destruct (predict_on_video_accounts video max_frames) as (rest & Hs & Hl & _).
  simpl. split; [exact Hl | exists rest; exact Hs].
Qed.

(** In every run, also one that a failure cuts short, the collected scores
    are the contributions of the frames read, frame after frame. *)
Theorem scores_are_frame_contributions (video : Video Frame) (max_frames : Z) :
  let st := snd (predict_on_video shape mtcnn_detect score_face video max_frames) in
  predictions st = flat_map (frame_scores shape mtcnn_detect score_face) (frames_read st).
Proof.
  destruct (predict_on_video_accounts video max_frames) as (rest & _ & _ & Hp & _).
  exact Hp.
Qed.

(** Every failure the handler absorbs is logged once, in order, with the
    1-based index of its frame; a frame without failure logs nothing. *)
Theorem warnings_are_logged_failures (video : Video Frame) (max_frames : Z) :
  let st := snd (predict_on_video shape mtcnn_detect score_face video max_frames) in
  warnings st = logged_failures shape mtcnn_detect score_face 0 (frames_read st).
Proof.
  destruct (predict_on_video_accounts video max_frames) as (rest & _ & _ & _ & Hw).
  exact Hw.
Qed.

Lemma scores_until_failure_length (frame : Frame) (boxes : list Box) :
  (List.length (scores_until_failure shape score_face frame boxes) <= List.length boxes)%nat.
Proof.
  induction boxes as [| box rest IH]; simpl; [lia |].
  destruct (crop_score shape score_face frame box) as [[pred |] | e]; simpl; lia.
Qed.

Lemma frame_scores_length (frame : Frame) :
  (List.length (frame_scores shape mtcnn_detect score_face frame)
     <= boxes_detected mtcnn_detect frame)%nat.
Proof.
  unfold frame_scores, boxes_detected.
  destruct (mtcnn_detect frame) as [[boxes |] | e]; simpl; try lia.
  apply scores_until_failure_length.
Qed.

Lemma flat_map_length_le (frames : list Frame) :
  (List.length (flat_map (frame_scores shape mtcnn_detect score_face) frames)
     <= list_sum (map (boxes_detected mtcnn_detect) frames))%nat.
Proof.
  induction frames as [| frame rest IH]; simpl; [lia |].
  rewrite length_app. pose proof (frame_scores_length frame). lia.
Qed.

(** A run collects at most one score per box detected on the frames it
    read. *)
Theorem at_most_one_score_per_box (video : Video Frame) (max_frames : Z) :
  let st := snd (predict_on_video shape mtcnn_detect score_face video max_frames) in
  (List.length (predictions st)
     <= list_sum (map (boxes_detected mtcnn_detect) (frames_read st)))%nat.
Proof.
  destruct (predict_on_video_accounts video max_frames) as (rest & _ & _ & Hp & _).
  simpl in *. rewrite Hp. apply flat_map_length_le.
Qed.

(** The loop looks at no event of the stream beyond its budget. *)
Lemma sampling_loop_firstn (limit : Z) (pending : list (outcome Frame)) :
  forall (idx : Z) (st : PyState Frame),
    sampling_loop shape mtcnn_detect score_face limit idx pending st =
    sampling_loop shape mtcnn_detect score_face limit idx
      (firstn (Z.to_nat (limit - idx)) pending) st.
Proof.
  induction pending as [| ev more IH]; intros idx st.
  - rewrite firstn_nil. reflexivity.
  - destruct (Z.ltb_spec idx limit) as [Hlt | Hge].
    + replace (Z.to_nat (limit - idx)) with (S (Z.to_nat (limit - (idx + 1)))) by lia.
      simpl. destruct (idx <? limit); [| reflexivity].
      destruct ev as [frame | e]; [| reflexivity].
      destruct (process_frame shape mtcnn_detect score_face (idx + 1) frame
                  (note_read frame st)) as [[[] | e] st1]; [apply IH | reflexivity].
    + rewrite !sampling_loop_done by lia. reflexivity.
Qed.

(** What lies in the stream beyond the first [min(max_frames, frame_count)]
    events cannot change the result: two videos that open alike, report the
    same frame count and agree on these first events give the same outcome
    and the same final state. *)
Theorem frames_beyond_budget_ignored (video video' : Video Frame) (max_frames : Z) :
  openable video = openable video' ->
  reported_frame_count video = reported_frame_count video' ->
  firstn (Z.to_nat (Z.min max_frames (reported_frame_count video))) (stream video)
    = firstn (Z.to_nat (Z.min max_frames (reported_frame_count video))) (stream video') ->
  predict_on_video shape mtcnn_detect score_face video max_frames
    = predict_on_video shape mtcnn_detect score_face video' max_frames.
Proof.
  intros Ho Hc Hs. unfold predict_on_video. rewrite <- Ho, <- Hc.
  destruct (openable video); simpl negb; cbv iota; [| reflexivity].
  rewrite (sampling_loop_firstn _ (stream video)), (sampling_loop_firstn _ (stream video')).
  rewrite Z.sub_0_r, Hs. reflexivity.
Qed.

(** The classifier is only ever given a crop that lies inside the frame and
    has at least one row and one column.  Processing a box consults the
    classifier on such crops only: with another classifier that gives the
    same answers and the same raises on them, the box has the same outcome
    and leaves the same state.  And whenever a box adds a score, the score
    is the classifier's answer on such a crop of that frame. *)
Theorem classifier_sees_inframe_crops (score_face' : Face Frame -> outcome Q)
        (frame : Frame) (box : Box) (h w : Z) (st : PyState Frame) :
  shape frame = (h, w) -> 0 <= h -> 0 <= w ->
  ((forall face,
      face_source face = frame ->
      0 <= row_lo face -> row_lo face < row_hi face -> row_hi face <= h ->
      0 <= col_lo face -> col_lo face < col_hi face -> col_hi face <= w ->
      score_face' face = score_face face) ->
   process_box shape score_face' frame box st = process_box shape score_face frame box st) /\
  (forall st',
     process_box shape score_face frame box st = (Return tt, st') ->
     predictions st' <> predictions st ->
     exists face pred,
       score_face face = Return pred /\
       predictions st' = predictions st ++ [pred] /\
       face_source face = frame /\
       0 <= row_lo face /\ row_lo face < row_hi face /\ row_hi face <= h /\
       0 <= col_lo face /\ col_lo face < col_hi face /\ col_hi face <= w).
Proof.
  intros Hshape Hh Hw.
  assert (Hcrop : forall y1 y2 x1 x2,
             face_size (crop shape frame y1 y2 x1 x2) <> 0 ->
             face_source (crop shape frame y1 y2 x1 x2) = frame /\
             0 <= row_lo (crop shape frame y1 y2 x1 x2) /\
             row_lo (crop shape frame y1 y2 x1 x2) < row_hi (crop shape frame y1 y2 x1 x2) /\
             row_hi (crop shape frame y1 y2 x1 x2) <= h /\
             0 <= col_lo (crop shape frame y1 y2 x1 x2) /\
             col_lo (crop shape frame y1 y2 x1 x2) < col_hi (crop shape frame y1 y2 x1 x2) /\
             col_hi (crop shape frame y1 y2 x1 x2) <= w).
  { intros y1 y2 x1 x2. unfold crop, face_size. rewrite Hshape. simpl. intros Hnz.
    pose proof (slice_bound_range h y1 Hh). pose proof (slice_bound_range h y2 Hh).
    pose proof (slice_bound_range w x1 Hw). pose proof (slice_bound_range w x2 Hw).
    split; [reflexivity |].
    assert (slice_bound h y1 < slice_bound h y2).
    { destruct (Z.lt_ge_cases (slice_bound h y1) (slice_bound h y2)); [assumption |].
      exfalso. apply Hnz. rewrite (Z.max_l 0 (slice_bound h y2 - slice_bound h y1)) by lia.
      reflexivity. }
    assert (slice_bound w x1 < slice_bound w x2).
    { destruct (Z.lt_ge_cases (slice_bound w x1) (slice_bound w x2)); [assumption |].
      exfalso. apply Hnz. rewrite (Z.max_l 0 (slice_bound w x2 - slice_bound w x1)) by lia.
      lia. }
    lia. }
  split.
  - intros Hsame. unfold process_box, bind, call.
    destruct (box_to_ints box) as [ints | e]; [| reflexivity].
    rewrite Hshape.
    destruct (clamp_box h w ints) as [[[x1 y1] x2] y2].
    destruct (Z.eqb_spec (face_size (crop shape frame y1 y2 x1 x2)) 0) as [Hz | Hnz];
      [reflexivity |].
    destruct (Hcrop y1 y2 x1 x2 Hnz) as (Hsrc & R0 & R1 & R2 & C0 & C1 & C2).
    rewrite (Hsame (crop shape frame y1 y2 x1 x2) Hsrc R0 R1 R2 C0 C1 C2). reflexivity.
  - intros st' Hrun Hnew.
    unfold process_box, bind, call in Hrun.
    destruct (box_to_ints box) as [ints | e]; [| discriminate].
    rewrite Hshape in Hrun.
    destruct (clamp_box h w ints) as [[[x1 y1] x2] y2].
    destruct (Z.eqb_spec (face_size (crop shape frame y1 y2 x1 x2)) 0) as [Hz | Hnz].
    + unfold ret in Hrun. injection Hrun as Hst. subst st'. congruence.
    + destruct (score_face (crop shape frame y1 y2 x1 x2)) as [pred | e] eqn:Es;
        [| discriminate].
      unfold append_prediction in Hrun. injection Hrun as Hst. subst st'.
      exists (crop shape frame y1 y2 x1 x2), pred.
      split; [exact Es |]. split; [reflexivity |]. apply Hcrop. exact Hnz.
Qed.

(** A box that lies inside the frame and is not degenerate is cropped
    exactly as given and handed to the classifier: its score is appended, or
    the classifier's raise is raised. *)
Theorem inframe_box_cropped_as_given (frame : Frame) (box : Box) (h w x1 y1 x2 y2 : Z)
        (st : PyState Frame) :
  shape frame = (h, w) ->
  box_to_ints box = Return (x1, y1, x2, y2) ->
  0 <= x1 -> x1 < x2 -> x2 <= w ->
  0 <= y1 -> y1 < y2 -> y2 <= h ->
  process_box shape score_face frame box st =
  match score_face (mkFace frame y1 y2 x1 x2) with
  | Return pred => (Return tt, add_predictions [pred] st)
  | Raise e => (Raise e, st)
  end.
Proof.
  intros Hshape Hints Hx1 Hx12 Hx2 Hy1 Hy12 Hy2.
  unfold process_box, bind, call. rewrite Hints, Hshape. simpl.
  rewrite (Z.max_r 0 x1), (Z.max_r 0 y1), (Z.min_r w x2), (Z.min_r h y2) by lia.
  unfold crop, face_size. rewrite Hshape. simpl.
  rewrite (slice_bound_inside h y1), (slice_bound_inside h y2),
    (slice_bound_inside w x1), (slice_bound_inside w x2) by lia.
  rewrite (Z.max_r 0 (y2 - y1)), (Z.max_r 0 (x2 - x1)) by lia.
  destruct (Z.eqb_spec ((y2 - y1) * (x2 - x1) * 3) 0) as [Hz | Hnz]; [nia |].
  destruct (score_face (mkFace frame y1 y2 x1 x2)); reflexivity.
Qed.

End RunAccounts.

(** * Facts about the upload endpoint *)

Lemma append_same_length_prefix (u u' x x' : string) :
  String.length u = String.length u' ->
  (u ++ x)%string = (u' ++ x')%string -> u = u'.
Proof.
  revert u'. induction u as [| a u IH]; intros [| a' u'] Hlen Heq;
    simpl in *; try discriminate; [reflexivity |].
  injection Heq as Ha Hrest. subst a'. f_equal. apply IH; [lia | exact Hrest].
Qed.

Lemma fs_del_add_same (path : string) (fs : FS) : fs_del path (fs_add path fs) path = false.
Proof. unfold fs_del. rewrite String.eqb_refl. reflexivity. Qed.

Lemma fs_del_add_other (path p : string) (fs : FS) :
  p <> path -> fs_del path (fs_add path fs) p = fs p.
Proof.
  intros Hne. unfold fs_del, fs_add.
  destruct (String.eqb_spec p path); [contradiction | reflexivity].
Qed.

Section EndpointFacts.

Context {Frame : Type}.
Variable shape : Frame -> Z * Z.
Variable mtcnn_detect : Frame -> outcome (option (list Box)).
Variable score_face : Face Frame -> outcome Q.
Variable str_lower : string -> string.
Variable secure_filename : string -> string.
Variable extension_listing : string.

(** A request without a file part, with an empty file name or with a name
    that [allowed_file] rejects is answered with status 400 and an error
    message; nothing is saved and [predict_on_video] is not run. *)
Theorem invalid_upload_rejected (request_files : outcome (option (FileStorage Frame)))
        (uuid4 : string) (remove_error : option string) (fs : FS) :
  request_files = Return None \/
  (exists file, request_files = Return (Some file) /\
                (filename file = ""%string \/ allowed_file str_lower (filename file) = false)) ->
  exists message,
    predict shape mtcnn_detect score_face str_lower secure_filename extension_listing
            request_files uuid4 remove_error fs
      = mkServed (Return (error_reply message 400)) fs None.
Proof.
  intros [Hnone | (file & Hsome & Hbad)]; subst request_files; simpl.
  - eexists. reflexivity.
  - destruct (String.eqb_spec (filename file) "") as [He | Hne].
    + eexists. reflexivity.
    + destruct Hbad as [He | Hrej]; [contradiction |].
      rewrite Hrej. simpl. eexists. reflexivity.
Qed.

(** Every reply has status 200, 400 or 500.  A 200 reply has the single
    key [prediction_result]; a 400 or 500 reply has the single key [error];
    and the only raise that leaves the function is one that is not an
    [Exception]. *)
Theorem reply_shape (request_files : outcome (option (FileStorage Frame)))
        (uuid4 : string) (remove_error : option string) (fs : FS) :
  match reply (predict shape mtcnn_detect score_face str_lower secure_filename
                       extension_listing request_files uuid4 remove_error fs) with
  | Return r =>
      (status r = 200 /\ exists result, body r = [("prediction_result"%string, result)]) \/
      ((status r = 400 \/ status r = 500) /\
       exists message, body r = [("error"%string, message)])
  | Raise e => is_Exception e = false
  end.
Proof.
  unfold predict. destruct request_files as [[file |] | e0].
  - destruct (String.eqb (filename file) ""); simpl; [right; eauto |].
    destruct (allowed_file str_lower (filename file)); simpl; [| right; eauto].
    destruct (save_result file) as [[] | e]; simpl.
    + destruct (fst (predict_on_video shape mtcnn_detect score_face (capture file) 50))
        as [result | e]; simpl; [left; eauto |].
      destruct (is_Exception e) eqn:E; simpl; [right; eauto | exact E].
    + unfold outer_handler. destruct (is_Exception e) eqn:E; simpl; [right; eauto | exact E].
  - simpl. right. eauto.
  - simpl. unfold outer_handler.
    destruct (is_Exception e0) eqn:E; simpl; [right; eauto | exact E].
Qed.

(** A reply with status 200 comes from an upload that passed the checks and
    whose [save] returned, and carries the decision string for the scores
    collected from at most 50 frames of it: a verdict, or the no-face
    message. *)
Theorem success_carries_decision (request_files : outcome (option (FileStorage Frame)))
        (uuid4 : string) (remove_error : option string) (fs : FS) (r : Response) :
  reply (predict shape mtcnn_detect score_face str_lower secure_filename
                 extension_listing request_files uuid4 remove_error fs) = Return r ->
  status r = 200 ->
  exists file st,
    request_files = Return (Some file) /\
    filename file <> ""%string /\
    allowed_file str_lower (filename file) = true /\
    save_result file = Return tt /\
    predict_on_video shape mtcnn_detect score_face (capture file) 50
      = (Return (decision_string (predictions st)), st) /\
    (List.length (frames_read st) <= 50)%nat /\
    body r = [("prediction_result"%string, decision_string (predictions st))].
Proof.
  unfold predict. destruct request_files as [[file |] | e0]; simpl;
    [| intros H; injection H as H; subst r; discriminate
     | unfold outer_handler; destruct (is_Exception e0); simpl;
       [intros H; injection H as H; subst r; discriminate | discriminate]].
  destruct (String.eqb_spec (filename file) "") as [He | Hne]; simpl;
    [intros H; injection H as H; subst r; discriminate |].
  destruct (allowed_file str_lower (filename file)) eqn:Ha; simpl;
    [| intros H; injection H as H; subst r; discriminate].
  destruct (save_result file) as [[] | e] eqn:Hsave; simpl.
  - destruct (predict_on_video shape mtcnn_detect score_face (capture file) 50)
      as [[result | e] st] eqn:E; simpl.
    + intros H _. injection H as H. subst r. simpl.
      destruct (predict_on_video_decision shape mtcnn_detect score_face
                  (capture file) 50 result st E) as [Hres _].
      destruct (predict_on_video_accounts shape mtcnn_detect score_face (capture file) 50)
        as (rest & _ & Hlen & _).
      rewrite E in Hlen. simpl in Hlen.
      exists file, st. subst result. repeat split; auto. lia.
    + destruct (is_Exception e); simpl; [| discriminate].
      intros H; injection H as H; subst r; discriminate.
  - unfold outer_handler. destruct (is_Exception e); simpl; [| discriminate].
    intros H; injection H as H; subst r; discriminate.
Qed.

(** Once an accepted upload is saved, its file is gone when the request
    ends, provided [os.remove] does not fail: whether the inference returns,
    fails, or is interrupted.  No other path of the file system changes. *)
Theorem upload_removed (file : FileStorage Frame) (uuid4 : string) (fs : FS) :
  filename file <> ""%string ->
  allowed_file str_lower (filename file) = true ->
  save_result file = Return tt ->
  let served := predict shape mtcnn_detect score_face str_lower secure_filename
                        extension_listing (Return (Some file)) uuid4 None fs in
  let file_path := upload_path secure_filename uuid4 (filename file) in
  files_after served file_path = false /\
  (forall p, p <> file_path -> files_after served p = fs p) /\
  inference served
    = Some (predict_on_video shape mtcnn_detect score_face (capture file) 50).
Proof.
  intros Hne Ha Hs. unfold predict.
  destruct (String.eqb_spec (filename file) "") as [He | _]; [contradiction |].
  rewrite Ha, Hs. simpl negb. cbv iota. cbv zeta.
  assert (Hc : cleanup (upload_path secure_filename uuid4 (filename file)) None
                 (fs_add (upload_path secure_filename uuid4 (filename file)) fs)
               = fs_del (upload_path secure_filename uuid4 (filename file))
                   (fs_add (upload_path secure_filename uuid4 (filename file)) fs)).
  { unfold cleanup, fs_add at 1. rewrite String.eqb_refl. reflexivity. }
  destruct (fst (predict_on_video shape mtcnn_detect score_face (capture file) 50))
    as [result | e]; [| destruct (is_Exception e)]; simpl; rewrite Hc;
    (split; [apply fs_del_add_same |]);
    (split; [intros p Hp; apply fs_del_add_other; exact Hp | reflexivity]).
Qed.

(** An accepted upload in which the capture finds no video is answered with
    status 500 and the message of line 106, after the file was saved. *)
Theorem unopenable_upload_is_server_error (file : FileStorage Frame) (uuid4 : string)
        (remove_error : option string) (fs : FS) :
  filename file <> ""%string ->
  allowed_file str_lower (filename file) = true ->
  save_result file = Return tt ->
  openable (capture file) = false ->
  reply (predict shape mtcnn_detect score_face str_lower secure_filename
                 extension_listing (Return (Some file)) uuid4 remove_error fs)
    = Return (error_reply "Model inference failed: Could not open video file" 500).
Proof.
  intros Hne Ha Hs Ho. unfold predict.
  destruct (String.eqb_spec (filename file) "") as [He | _]; [contradiction |].
  rewrite Ha, Hs. simpl negb. cbv iota. cbv zeta.
  unfold predict_on_video. rewrite Ho. reflexivity.
Qed.

(** Whatever the request, the inference reads at most 50 frames. *)
Theorem endpoint_frame_budget (request_files : outcome (option (FileStorage Frame)))
        (uuid4 : string) (remove_error : option string) (fs : FS)
        (result : outcome string) (st : PyState Frame) :
  inference (predict shape mtcnn_detect score_face str_lower secure_filename
                     extension_listing request_files uuid4 remove_error fs)
    = Some (result, st) ->
  (List.length (frames_read st) <= 50)%nat.
Proof.
  unfold predict. destruct request_files as [[file |] | e0]; simpl;
    [| discriminate | discriminate].
  destruct (String.eqb (filename file) ""); simpl; [discriminate |].
  destruct (allowed_file str_lower (filename file)); simpl; [| discriminate].
  destruct (save_result file) as [[] | e]; simpl; [| discriminate].
  destruct (predict_on_video_accounts shape mtcnn_detect score_face (capture file) 50)
    as (rest & _ & Hlen & _).
  destruct (predict_on_video shape mtcnn_detect score_face (capture file) 50)
    as [[res | e] st0]; simpl in *.
  - intros H. injection H as _ Hst. subst st0. lia.
  - destruct (is_Exception e); simpl; intros H; injection H as _ Hst; subst st0; lia.
Qed.

(** Two requests whose UUID texts differ and have the same length are saved
    under different paths, whatever the client file names are. *)
Theorem upload_paths_distinct (uuid4 uuid4' name name' : string) :
  String.length uuid4 = String.length uuid4' ->
  uuid4 <> uuid4' ->
  upload_path secure_filename uuid4 name <> upload_path secure_filename uuid4' name'.
Proof.
  intros Hlen Hne Heq. apply Hne. unfold upload_path, os_path_join in Heq.
  destruct uuid4 as [| a u], uuid4' as [| a' u']; simpl in Hlen; try discriminate;
    [reflexivity |].
  cbn [append] in Heq.
  destruct (Ascii.eqb_spec a "/") as [Ha | Ha], (Ascii.eqb_spec a' "/") as [Ha' | Ha'].
  - exact (append_same_length_prefix (String a u) (String a' u') _ _ Hlen Heq).
  - subst a. simpl in Heq. discriminate.
  - subst a'. simpl in Heq. discriminate.
  - simpl in Heq. injection Heq as Ha1 Hrest.
    refine (append_same_length_prefix (String a u) (String a' u') _ _ Hlen _).
    simpl. rewrite Ha1, Hrest. reflexivity.
Qed.

End EndpointFacts.

(** * The testing server against the real one *)

(** On every request the testing server leaves the same files as the real
    one; it gives the same reply whenever the real one does not reach the
    inference (a rejected upload, a failed save); and where the real one
    runs the inference, it replies 200 with the mock's string. *)
Theorem testing_server_agrees (Frame : Type) (shape : Frame -> Z * Z)
        (mtcnn_detect : Frame -> outcome (option (list Box)))
        (score_face : Face Frame -> outcome Q)
        (str_lower secure_filename : string -> string) (extension_listing : string)
        (request_files : outcome (option (FileStorage Frame))) (uuid4 : string)
        (remove_error : option string) (confidence : Q) (is_fake : bool) (fs : FS) :
  let real := predict shape mtcnn_detect score_face str_lower secure_filename
                      extension_listing request_files uuid4 remove_error fs in
  let test := AppSimple.predict str_lower secure_filename extension_listing
                                request_files uuid4 remove_error confidence is_fake fs in
  files_after test = files_after real /\
  (inference real = None -> reply test = reply real) /\
  (inference real <> None ->
     reply test
       = Return (mkResponse
                   [("prediction_result"%string,
                     AppSimple.mock_predict_on_video confidence is_fake)] 200)).
Proof.
  unfold predict, AppSimple.predict. destruct request_files as [[file |] | e0]; simpl.
  - destruct (String.eqb (filename file) ""); simpl; [repeat split; congruence |].
    destruct (allowed_file str_lower (filename file)); simpl; [| repeat split; congruence].
    destruct (save_result file) as [[] | e]; simpl; [| repeat split; congruence].
    destruct (fst (predict_on_video shape mtcnn_detect score_face (capture file) 50))
      as [result | e]; [| destruct (is_Exception e)]; simpl;
      (split; [reflexivity |]); (split; [discriminate | reflexivity]).
  - repeat split; congruence.
  - repeat split; congruence.
Qed.

(** * The endpoint on concrete requests *)

Lemma frames_beyond_budget_ignored_witness :
  Scenario.run (Scenario.video_of [Scenario.plain_frame; Scenario.interrupted]) 1
    = Scenario.run (mkVideo true 2 [Return Scenario.plain_frame; Return Scenario.detect_fails]) 1.
Proof.
  apply (frames_beyond_budget_ignored Scenario.tf_shape Scenario.tf_detect
           Scenario.tf_score_face
           (Scenario.video_of [Scenario.plain_frame; Scenario.interrupted])
           (mkVideo true 2 [Return Scenario.plain_frame; Return Scenario.detect_fails]) 1);
    reflexivity.
Defined.

Lemma classifier_sees_inframe_crops_witness :
  process_box Scenario.tf_shape Scenario.rejects_empty_crops Scenario.plain_frame
    (Scenario.box_of_Z 60 10 50 50) initial_state
  = process_box Scenario.tf_shape Scenario.tf_score_face Scenario.plain_frame
      (Scenario.box_of_Z 60 10 50 50) initial_state.
Proof.
  apply (proj1 (classifier_sees_inframe_crops Scenario.tf_shape Scenario.tf_score_face
                  Scenario.rejects_empty_crops Scenario.plain_frame
                  (Scenario.box_of_Z 60 10 50 50) 100 100 initial_state
                  eq_refl ltac:(lia) ltac:(lia))).
  intros face Hsrc R0 R1 R2 C0 C1 C2. unfold Scenario.rejects_empty_crops.
  destruct (Z.ltb_spec (row_lo face) (row_hi face)); [| lia].
  destruct (Z.ltb_spec (col_lo face) (col_hi face)); [| lia].
  reflexivity.
Defined.

Lemma inframe_box_cropped_as_given_witness :
  process_box Scenario.tf_shape Scenario.tf_score_face Scenario.plain_frame
    (Scenario.box_of_Z 10 10 50 50) initial_state
    = (Return tt, add_predictions [(9 # 10)%Q] initial_state).
Proof.
  exact (inframe_box_cropped_as_given Scenario.tf_shape Scenario.tf_score_face
           Scenario.plain_frame (Scenario.box_of_Z 10 10 50 50) 100 100 10 10 50 50
           initial_state eq_refl eq_refl
           ltac:(lia) ltac:(lia) ltac:(lia) ltac:(lia) ltac:(lia) ltac:(lia)).
Defined.

(** test_api.py, lines 30-41 and 73-92: a request without a file and a
    text file are answered 400. *)
Lemma invalid_upload_rejected_witness :
  exists message,
    Upload.serve (Return (Some Upload.text_file)) Upload.uuid_a None Upload.empty_fs
      = mkServed (Return (error_reply message 400)) Upload.empty_fs None.
Proof.
  apply (invalid_upload_rejected Scenario.tf_shape Scenario.tf_detect Scenario.tf_score_face
           Upload.lower Upload.secure Upload.listing).
  right. exists Upload.text_file. split; [reflexivity |]. right. reflexivity.
Defined.

Example text_file_message :
  reply (Upload.serve (Return (Some Upload.text_file)) Upload.uuid_a None Upload.empty_fs)
    = Return (error_reply "Invalid file type. Allowed types: mp4, avi, mov, mkv, webm" 400).
Proof. reflexivity. Qed.

Lemma success_carries_decision_witness :
  exists st,
    Scenario.run (Scenario.video_of [Scenario.plain_frame]) 50
      = (Return (decision_string (predictions st)), st) /\
    (List.length (frames_read st) <= 50)%nat.
Proof.
  destruct (success_carries_decision Scenario.tf_shape Scenario.tf_detect
              Scenario.tf_score_face Upload.lower Upload.secure Upload.listing
              (Return (Some (Upload.upload "Clip.MP4"
                                           (Scenario.video_of [Scenario.plain_frame]))))
              Upload.uuid_a None Upload.empty_fs
              (mkResponse [("prediction_result"%string,
                            "Video is 90.00% likely to be a FAKE."%string)] 200)
              eq_refl eq_refl)
    as (file & st & Hfile & _ & _ & _ & Hrun & Hlen & _).
  injection Hfile as Hfile. subst file. exists st. split; [exact Hrun | exact Hlen].
Defined.

Lemma upload_removed_witness :
  files_after
    (Upload.serve (Return (Some (Upload.upload "Clip.MP4" (Scenario.video_of [Scenario.interrupted]))))
                  Upload.uuid_a None Upload.empty_fs)
    (upload_path Upload.secure Upload.uuid_a "Clip.MP4") = false.
Proof.
  exact (proj1 (upload_removed Scenario.tf_shape Scenario.tf_detect Scenario.tf_score_face
                  Upload.lower Upload.secure Upload.listing
                  (Upload.upload "Clip.MP4" (Scenario.video_of [Scenario.interrupted]))
                  Upload.uuid_a Upload.empty_fs
                  ltac:(discriminate) eq_refl eq_refl)).
Defined.

(** test_api.py, lines 46-67: the text sent as test_video.mp4 is accepted
    by name, saved, and fails to open. *)
Lemma unopenable_upload_is_server_error_witness :
  reply (Upload.serve (Return (Some Upload.mock_mp4)) Upload.uuid_a None Upload.empty_fs)
    = Return (error_reply "Model inference failed: Could not open video file" 500).
Proof.
  apply (unopenable_upload_is_server_error Scenario.tf_shape Scenario.tf_detect
           Scenario.tf_score_face Upload.lower Upload.secure Upload.listing
           Upload.mock_mp4 Upload.uuid_a None Upload.empty_fs);
    [discriminate | reflexivity | reflexivity | reflexivity].
Defined.

Lemma endpoint_frame_budget_witness :
  (List.length
     (frames_read
        (snd (Scenario.run (Scenario.video_of (repeat Scenario.empty_frame 60)) 50)))
   <= 50)%nat.
Proof.
  apply (endpoint_frame_budget Scenario.tf_shape Scenario.tf_detect Scenario.tf_score_face
           Upload.lower Upload.secure Upload.listing
           (Return (Some (Upload.upload "long.mov"
                                        (Scenario.video_of (repeat Scenario.empty_frame 60)))))
           Upload.uuid_a None Upload.empty_fs
           (fst (Scenario.run (Scenario.video_of (repeat Scenario.empty_frame 60)) 50))).
  reflexivity.
Defined.

Lemma upload_paths_distinct_witness :
  upload_path Upload.secure Upload.uuid_a "clip.mp4"
    <> upload_path Upload.secure Upload.uuid_b "clip.mp4".
Proof.
  apply (upload_paths_distinct Upload.secure Upload.uuid_a Upload.uuid_b);
    [reflexivity | discriminate].
Defined.

(** * The answers of the mock against those of the pipeline *)

(** Reading a printed number back. *)
Lemma parse_dec_of_N (n : N) :
  option_map N.of_uint (NilEmpty.uint_of_string (dec_of_N n)) = Some n.
Proof.
  unfold dec_of_N, NilZero.string_of_uint.
  assert (Hnn : N.to_uint n <> Decimal.Nil).
  { destruct n; simpl; [discriminate | apply DecimalPos.Unsigned.to_uint_nonnil]. }
  assert (E : match N.to_uint n with
              | Decimal.Nil => "0"%string
              | _ => NilEmpty.string_of_uint (N.to_uint n)
              end = NilEmpty.string_of_uint (N.to_uint n)).
  { destruct (N.to_uint n); [congruence | reflexivity ..]. }
  rewrite E, NilEmpty.usu. simpl. rewrite DecimalN.Unsigned.of_to. reflexivity.
Qed.

Lemma dec_of_N_inj (n n' : N) : dec_of_N n = dec_of_N n' -> n = n'.
Proof.
  intros H. pose proof (parse_dec_of_N n) as P. rewrite H, parse_dec_of_N in P.
  congruence.
Qed.

Lemma parse_two_digits (n : N) :
  option_map N.of_uint (NilEmpty.uint_of_string (two_digits n)) = Some n.
Proof.
  unfold two_digits. destruct (n <? 10)%N; [| apply parse_dec_of_N].
  pose proof (parse_dec_of_N n) as P. simpl.
  destruct (NilEmpty.uint_of_string (dec_of_N n)) as [d |]; [| discriminate].
  simpl in *. exact P.
Qed.

Lemma two_digits_inj (n n' : N) : two_digits n = two_digits n' -> n = n'.
Proof.
  intros H. pose proof (parse_two_digits n) as P. rewrite H, parse_two_digits in P.
  congruence.
Qed.

(** A printed natural number holds digits only. *)
Lemma digits_only (c : ascii) (d : Decimal.uint) :
  (nat_of_ascii c < 48 \/ 57 < nat_of_ascii c)%nat ->
  str_contains c (NilEmpty.string_of_uint d) = false.
Proof.
  intros Hc. induction d; cbn [NilEmpty.string_of_uint str_contains];
    [reflexivity | ..]; rewrite IHd, Bool.orb_false_r; apply Ascii.eqb_neq;
    intros E; subst c; vm_compute in Hc; lia.
Qed.

Lemma dec_of_N_digits (c : ascii) (n : N) :
  (nat_of_ascii c < 48 \/ 57 < nat_of_ascii c)%nat -> str_contains c (dec_of_N n) = false.
Proof.
  intros Hc. unfold dec_of_N, NilZero.string_of_uint.
  destruct (N.to_uint n) eqn:E; try (rewrite <- E; apply digits_only; exact Hc).
  cbn [str_contains]. rewrite Bool.orb_false_r. apply Ascii.eqb_neq.
  intros E0. subst c. vm_compute in Hc. lia.
Qed.

Lemma dot_not_digit : (nat_of_ascii "." < 48 \/ 57 < nat_of_ascii ".")%nat.
Proof. left. vm_compute. lia. Qed.

Lemma percent_not_digit : (nat_of_ascii "%" < 48 \/ 57 < nat_of_ascii "%")%nat.
Proof. left. vm_compute. lia. Qed.

Lemma str_contains_append (c : ascii) (a b : string) :
  str_contains c (a ++ b) = (str_contains c a || str_contains c b)%bool.
Proof.
  induction a as [| x a IH]; simpl; [reflexivity |].
  rewrite IH. apply Bool.orb_assoc.
Qed.

(** Two strings cut at the first occurrence of a character agree on both
    sides. *)
Lemma split_at_first (c : ascii) (a a' r r' : string) :
  str_contains c a = false -> str_contains c a' = false ->
  (a ++ String c r)%string = (a' ++ String c r')%string -> a = a' /\ r = r'.
Proof.
  revert a'. induction a as [| x a IH]; intros [| x' a'] Ha Ha' H; simpl in *.
  - injection H as H. auto.
  - injection H as Hx _. subst x'. rewrite Ascii.eqb_refl in Ha'. discriminate.
  - injection H as Hx _. subst x. rewrite Ascii.eqb_refl in Ha. discriminate.
  - injection H as Hx H. subst x'.
    apply Bool.orb_false_iff in Ha. apply Bool.orb_false_iff in Ha'.
    destruct (IH a' (proj2 Ha) (proj2 Ha') H) as [E1 E2]. subst. auto.
Qed.

(** For numbers that are not negative, equal prints mean equal values once
    rounded to hundredths. *)
Lemma format_2f_inj (x y : Q) :
  (0 <= x)%Q -> (0 <= y)%Q -> format_2f x = format_2f y ->
  Z.to_N (round_half_even (Qabs x * 100)) = Z.to_N (round_half_even (Qabs y * 100)).
Proof.
  intros Hx Hy. unfold format_2f.
  destruct (Qlt_le_dec x 0) as [Hx' | _]; [lra |].
  destruct (Qlt_le_dec y 0) as [Hy' | _]; [lra |].
  set (n := Z.to_N (round_half_even (Qabs x * 100))).
  set (n' := Z.to_N (round_half_even (Qabs y * 100))).
  simpl. intros H.
  apply (split_at_first "." (dec_of_N (n / 100)) (dec_of_N (n' / 100))) in H;
    try (apply dec_of_N_digits; exact dot_not_digit).
  destruct H as [Hq Hr]. apply dec_of_N_inj in Hq. apply two_digits_inj in Hr.
  rewrite (N.div_mod n 100), (N.div_mod n' 100) by discriminate. rewrite Hq, Hr.
  reflexivity.
Qed.

Lemma format_2f_no_percent (x : Q) : str_contains "%" (format_2f x) = false.
Proof.
  unfold format_2f. rewrite !str_contains_append.
  rewrite dec_of_N_digits by exact percent_not_digit.
  unfold two_digits. rewrite str_contains_append, dec_of_N_digits by exact percent_not_digit.
  destruct (Qlt_le_dec x 0); destruct (_ <? 10)%N; reflexivity.
Qed.

(** What the mock returns for REAL is never an answer of the pipeline: with
    classifier scores in [0, 1], no run of [predict_on_video] returns the
    string that [mock_predict_on_video] builds when [is_fake] is false. *)
Theorem mock_real_never_from_pipeline (Frame : Type) (shape : Frame -> Z * Z)
        (mtcnn_detect : Frame -> outcome (option (list Box)))
        (score_face : Face Frame -> outcome Q)
        (video : Video Frame) (max_frames : Z) (s : string) (st : PyState Frame)
        (confidence : Q) :
  (forall face q, score_face face = Return q -> 0 <= q /\ q <= 1)%Q ->
  (70 <= confidence /\ confidence <= 95)%Q ->
  predict_on_video shape mtcnn_detect score_face video max_frames = (Return s, st) ->
  s <> AppSimple.mock_predict_on_video confidence false.
Proof.
  intros Hscore [Hlo Hhi] Hrun.
  destruct (predict_on_video_decision shape mtcnn_detect score_face video max_frames s st Hrun)
    as [Hs Hrange].
  subst s. unfold decision_string, AppSimple.mock_predict_on_video.
  destruct (aggregate (predictions st)) as [| label c] eqn:Hagg; simpl; [discriminate |].
  pose proof (aggregate_confidence_bounds (predictions st) label c) as Hb.
  destruct Hb as (Hc & _ & _); [| exact Hagg |].
  { intros q Hq. destruct (Hrange q Hq) as [face Hface]. exact (Hscore face q Hface). }
  destruct label; intros H; injection H as H.
  - apply (split_at_first "%" (format_2f c) (format_2f (100 - confidence))) in H;
      try apply format_2f_no_percent.
    destruct H as [_ H]. discriminate.
  - apply (split_at_first "%" (format_2f c) (format_2f (100 - confidence))) in H;
      try apply format_2f_no_percent.
    destruct H as [H _].
    apply format_2f_inj in H; [| lra | lra].
    rewrite (round_half_even_Qeq (Qabs c * 100) (c * 100)),
      (round_half_even_Qeq (Qabs (100 - confidence) * 100) ((100 - confidence) * 100)) in H
      by (rewrite Qabs_pos by lra; reflexivity).
    assert (H1 : 5000 <= round_half_even (c * 100)).
    { apply round_half_even_ge. change (inject_Z 5000) with 5000%Q. lra. }
    assert (H2 : round_half_even ((100 - confidence) * 100) <= 3000).
    { apply round_half_even_le. change (inject_Z 3000) with 3000%Q. lra. }
    lia.
Qed.

Lemma mock_real_never_from_pipeline_witness :
  fst (predict_on_video Scenario.tf_shape Scenario.tf_detect
         (Scenario.constant_score (1 # 10))
         (Scenario.video_of [Scenario.plain_frame]) 50)
    <> Return (AppSimple.mock_predict_on_video 80 false).
Proof.
  pose (r := predict_on_video Scenario.tf_shape Scenario.tf_detect
               (Scenario.constant_score (1 # 10))
               (Scenario.video_of [Scenario.plain_frame]) 50).
  assert (Hscore : (forall (face : Face Scenario.TestFrame) q,
                       Scenario.constant_score (1 # 10) face = Return q ->
                       0 <= q /\ q <= 1)%Q).
  { intros face q H. injection H as H. subst q. split; discriminate. }
  assert (Hconf : (70 <= 80 /\ 80 <= 95)%Q) by (split; discriminate).
  intros H.
  apply (mock_real_never_from_pipeline Scenario.TestFrame Scenario.tf_shape
           Scenario.tf_detect (Scenario.constant_score (1 # 10))
           (Scenario.video_of [Scenario.plain_frame]) 50
           "Video is 90.00% likely to be REAL."%string (snd r) 80%Q
           Hscore Hconf eq_refl).
  exact (f_equal (fun o => match o with Return x => x | Raise _ => EmptyString end) H).
Defined.

(** * Where a raise of [predict_on_video] comes from *)

Section RaiseOrigin.

Context {Frame : Type}.
Variable shape : Frame -> Z * Z.
Variable mtcnn_detect : Frame -> outcome (option (list Box)).
Variable score_face : Face Frame -> outcome Q.

Lemma sampling_loop_raise_origin (limit : Z) (pending : list (outcome Frame)) (e : pyexn) :
  forall (idx : Z) (st st' : PyState Frame),
    sampling_loop shape mtcnn_detect score_face limit idx pending st = (Raise e, st') ->
    In (Raise e) pending \/
    (is_Exception e = false /\
     exists frame, In (Return frame) pending /\
                   try_outcome shape mtcnn_detect score_face frame = Raise e).
Proof.
  induction pending as [| ev more IH]; intros idx st st'; simpl.
  - destruct (idx <? limit); discriminate.
  - destruct (idx <? limit); [| discriminate].
    destruct ev as [frame | e0].
    + pose proof (process_frame_eq shape mtcnn_detect score_face
                    (idx + 1) frame (note_read frame st)) as Hp.
      destruct (process_frame shape mtcnn_detect score_face (idx + 1) frame
                  (note_read frame st)) as [[[] | e1] st1] eqn:E.
      * intros H. destruct (IH _ _ _ H) as [Hin | (He & f & Hin & Hf)].
        -- left. right. exact Hin.
        -- right. split; [exact He |]. exists f. split; [right; exact Hin | exact Hf].
      * intros H. injection H as He _. subst e1. right.
        destruct (try_outcome shape mtcnn_detect score_face frame) as [[] | e2] eqn:Et;
          [discriminate |].
        destruct (is_Exception e2) eqn:Ex; [discriminate |].
        injection Hp as He _. subst e2. split; [exact Ex |].
        exists frame. split; [left; reflexivity | exact Et].
    + intros H. injection H as He _. subst e0. left. left. reflexivity.
Qed.

(** When [predict_on_video] raises, either the video did not open and the
    raise is the one of line 106, or a read of the capture raised it, or it
    is not an [Exception] and was raised while a frame of the stream was
    processed.  No [Exception] raised by the detector, the conversion of a
    box or the classifier ever leaves the function. *)
Theorem raised_exception_origin (video : Video Frame) (max_frames : Z)
        (e : pyexn) (st : PyState Frame) :
  predict_on_video shape mtcnn_detect score_face video max_frames = (Raise e, st) ->
  (openable video = false /\ e = Exception_ "Could not open video file") \/
  (openable video = true /\ In (Raise e) (stream video)) \/
  (openable video = true /\ is_Exception e = false /\
   exists frame, In (Return frame) (stream video) /\
                 try_outcome shape mtcnn_detect score_face frame = Raise e).
Proof.
  unfold predict_on_video. destruct (openable video); simpl negb; cbv iota.
  - destruct (sampling_loop shape mtcnn_detect score_face
                (Z.min max_frames (reported_frame_count video)) 0 (stream video)
                (open_handle initial_state)) as [[[] | e0] st0] eqn:E; [discriminate |].
    intros H. injection H as He _. subst e0. right.
    destruct (sampling_loop_raise_origin _ _ _ _ _ _ E) as [Hin | Hbase]; auto.
  - intros H. injection H as He _. left. auto.
Qed.

End RaiseOrigin.

Lemma raised_exception_origin_witness :
  In (Raise (Exception_ "cv2.error: decoder failure")) (stream Scenario.broken_read).
Proof.
  destruct (raised_exception_origin Scenario.tf_shape Scenario.tf_detect
              Scenario.tf_score_face Scenario.broken_read 50
              (Exception_ "cv2.error: decoder failure")
              (snd (Scenario.run Scenario.broken_read 50)) eq_refl)
    as [[Ho _] | [[_ Hin] | (_ & Hex & _)]].
  - discriminate Ho.
  - exact Hin.
  - discriminate Hex.
Defined.

Lemma crop_empty_iff_degenerate_witness :
  face_size (crop Scenario.tf_shape Scenario.plain_frame
               (Z.max 0 10) (Z.min 100 50) (Z.max 0 150) (Z.min 100 160)) = 0.
Proof.
  apply (crop_empty_iff_degenerate Scenario.tf_shape Scenario.plain_frame
           100 100 150 10 160 50 eq_refl); lia.
Defined.

Lemma crop_nonempty_left_of_frame_witness :
  0 < face_size (crop Scenario.tf_shape Scenario.left_of_frame
                   (Z.max 0 10) (Z.min 100 50) (Z.max 0 (-20)) (Z.min 100 (-10))).
Proof.
  apply (crop_nonempty_left_of_frame Scenario.tf_shape Scenario.left_of_frame
           100 100 (-20) 10 (-10) 50 eq_refl); lia.
Defined.
